(** * get_protein_mass_mapping: a shallow embedding and its properties

    This development embeds
    [autopacmen/submodules/get_protein_mass_mapping.py] and proves the
    properties its specification states about it.

    The function is a single pass with four phases: it groups the model's
    genes by their UniProt accession, resolves a mass for every accession
    (from the pickle cache under [./_cache/uniprot/] or from UniProt's REST
    interface), expands the resolved masses back to the genes, and writes the
    result as JSON.

    What is modelled, and how:
    - Python's insertion-ordered [dict] with [str] keys is [PyDict.t]: an
      association list whose keys are kept distinct, in insertion order.
    - Python's [float] is a binary64 number: Rocq's primitive [float].
    - The effects (files, HTTP requests, [print], [time.sleep]) are threaded
      through a state-and-exception monad [M] that also records the
      observable events of a run in order.
    - [try: ... except Exception: pass] around the request is the [option]
      computed by [lookup_mass]: [None] is any raised exception.

    What is assumed about the environment. The helpers of [helper_general]
    are not part of the embedded file; they are modelled from the
    specification of the Mass Cache and of the Output Writer (each such
    definition says so). The pickle files and the JSON files are kept in two
    stores: the output file is taken not to be a record of the cache folder.
    File operations fail in one way only, a record that cannot be
    deserialized; accessions are taken to be usable as file names, as the
    source does. *)

From Stdlib Require Import Floats ZArith Ascii String.
From stdpp Require Import base strings list gmap.

Set Warnings "-inexact-float,-register-all,-clear-no-such-hyp".

Local Open Scope string_scope.
Local Open Scope list_scope.

(** ** Python dictionaries *)

Module PyDict.

(** A [dict] with [str] keys: bindings in insertion order. *)
Definition t (V : Type) : Type := list (string * V).

Section ops.
Context {V : Type}.

Definition empty : t V := [].

(** [d[k]]; [None] stands for [KeyError]. *)
Fixpoint get (d : t V) (k : string) : option V :=
  match d with
  | [] => None
  | (k', v) :: d' => if decide (k = k') then Some v else get d' k
  end.

(** [k in d]. *)
Definition mem (k : string) (d : t V) : bool :=
  match get d k with Some _ => true | None => false end.

(** [d[k] = v]: an existing key keeps its position, a new one goes last. *)
Fixpoint set (d : t V) (k : string) (v : V) : t V :=
  match d with
  | [] => [(k, v)]
  | (k', v') :: d' =>
      if decide (k = k') then (k, v) :: d' else (k', v') :: set d' k v
  end.

(** [list(d.keys())]. *)
Definition keys (d : t V) : list string := d.*1.

End ops.

End PyDict.

(** ** The model object *)

Module cobra.

(** A gene of the model: its identifier and its annotation dictionary. *)
Record Gene : Type := { id : string; annotation : gmap string string }.

(** The part of [cobra.Model] the function reads. *)
Record Model : Type := { genes : list Gene }.

(** [model.genes] is a [DictList]: no two genes share an identifier. *)
Definition well_formed (model : Model) : Prop := NoDup (id <$> genes model).

End cobra.

(** ** JSON values, responses and the [float] builtin *)

(** The value [json.loads] returns. *)
Inductive json : Type :=
| JNull
| JBool (b : bool)
| JInt (z : Z)
| JFloat (x : float)
| JString (s : string)
| JArray (l : list json)
| JObject (d : list (string * json)).

(** What the function reads of a [requests.Response]. *)
Record Response : Type := { ok : bool; text : string }.

(** [j[k]] for a [str] key [k]: defined on objects that have the key
    ([KeyError] otherwise, [TypeError] on any other value). *)
Definition subscript (j : json) (k : string) : option json :=
  match j with
  | JObject d => PyDict.get d k
  | _ => None
  end.

(** [float(z)] for an [int]: the nearest binary64, [OverflowError] when it
    is out of range. *)
Definition float_of_int (z : Z) : option float :=
  let x := SF2Prim (binary_normalize 53 1024 z 0 false) in
  if PrimFloat.is_infinity x then None else Some x.

(** ** Files, events and the monad of effects *)

(** A file of the cache folder: a pickled mass, or bytes [pickle] rejects. *)
Inductive pickle_file : Type :=
| Pickled (mass : float)
| Undeserializable.

(** A file written by [json_write], or any other content. *)
Inductive plain_file : Type :=
| JsonMapping (d : PyDict.t float)
| Other (content : string).

Record filesystem : Type := {
  folders : gset string;
  pickles : gmap string pickle_file;
  files : gmap string plain_file
}.

(** An argument of [print]. *)
Inductive pyval : Type :=
| PStr (s : string)
| PFloat (x : float).

(** What a run does that can be observed besides the files it leaves. *)
Inductive event : Type :=
| Print (args : list pyval)
| Get (url : string) (headers : PyDict.t string)
| Sleep (seconds : float).

(** The exceptions that leave the function. *)
Inductive exn : Type :=
| CacheCorrupt (path : string)
| FileNotFound (path : string)
| KeyError (key : string).

Inductive outcome (A : Type) : Type :=
| Returned (a : A)
| Raised (e : exn).
Arguments Returned {A} a.
Arguments Raised {A} e.

Record result (A : Type) : Type :=
  Result { value : outcome A; final : filesystem; log : list event }.
Arguments Result {A} value final log.
Arguments value {A} r.
Arguments final {A} r.
Arguments log {A} r.

Definition M (A : Type) : Type := filesystem -> result A.

Definition ret {A} (a : A) : M A := fun fs => Result (Returned a) fs [].

Definition bind {A B} (m : M A) (k : A -> M B) : M B := fun fs =>
  let r := m fs in
  match value r with
  | Raised e => Result (Raised e) (final r) (log r)
  | Returned a =>
      let r' := k a (final r) in
      Result (value r') (final r') (log r ++ log r')
  end.

Declare Scope py_scope.
Delimit Scope py_scope with py.
Notation "x <- m ;; k" := (bind m (fun x => k))
  (at level 100, m at next level, right associativity) : py_scope.
Notation "m ;; k" := (bind m (fun _ => k))
  (at level 100, right associativity) : py_scope.
Local Open Scope py_scope.

Definition raise {A} (e : exn) : M A := fun fs => Result (Raised e) fs [].

Definition emit (e : event) : M unit := fun fs => Result (Returned tt) fs [e].

(** [for x in l: s = body(s, x)], stopping at the first exception. *)
Fixpoint for_each {A S} (l : list A) (body : S -> A -> M S) (s : S) : M S :=
  match l with
  | [] => ret s
  | x :: l' => s' <- body s x ;; for_each l' body s'
  end.

Definition print (args : list pyval) : M unit := emit (Print args).

Definition sleep (seconds : float) : M unit := emit (Sleep seconds).

(** ** The helpers of [helper_general] *)

(** [strip_prefix p s]: the rest of [s] after [p], when [s] starts with [p]. *)
Fixpoint strip_prefix (p s : string) : option string :=
  match p, s with
  | EmptyString, _ => Some s
  | String a p', String b s' => if decide (a = b) then strip_prefix p' s' else None
  | String _ _, EmptyString => None
  end.

Fixpoint ends_with_separator (s : string) : bool :=
  match s with
  | EmptyString => false
  | String a EmptyString => bool_decide (a = "/"%char)
  | String _ s' => ends_with_separator s'
  end.

(** The file system with the record [x] stored at [path]. *)
Definition with_pickle (fs : filesystem) (path : string) (x : pickle_file)
  : filesystem :=
  {| folders := folders fs;
     pickles := <[path := x]> (pickles fs);
     files := files fs |}.

(** The file system with the file [x] stored at [path]. *)
Definition with_file (fs : filesystem) (path : string) (x : plain_file)
  : filesystem :=
  {| folders := folders fs;
     pickles := pickles fs;
     files := <[path := x]> (files fs) |}.

(** The file system with the folder [path] present. *)
Definition with_folder (fs : filesystem) (path : string) : filesystem :=
  {| folders := {[path]} ∪ folders fs;
     pickles := pickles fs;
     files := files fs |}.

(** Modelled from the spec: [helper_general.standardize_folder] is not in
    the embedded file. "Folder path is normalized (trailing separator
    ensured) before use." *)
Definition standardize_folder (folder : string) : string :=
  if ends_with_separator folder then folder else folder +:+ "/".

(** Modelled from the spec: [helper_general.ensure_folder_existence] is not
    in the embedded file. "A fixed, process-local directory created on
    demand (create-if-absent, no explicit teardown)." *)
Definition ensure_folder_existence (path : string) : M unit := fun fs =>
  Result (Returned tt) (with_folder fs path) [].

(** Modelled from the spec: [helper_general.get_files] is not in the
    embedded file. It lists the records of the Mass Cache, "the accession
    string is used verbatim as the record's name": the names [n] such that
    [path ++ n] is a stored record. *)
Definition get_files (path : string) : M (list string) := fun fs =>
  Result (Returned (omap (strip_prefix path) (map_to_list (pickles fs)).*1)) fs [].

(** Modelled from the spec: [helper_general.pickle_load] is not in the
    embedded file. "[read(accession) -> mass]: returns the persisted numeric
    value; fails with [CacheCorrupt] if the stored record cannot be
    deserialized." *)
Definition pickle_load (path : string) : M float := fun fs =>
  match pickles fs !! path with
  | Some (Pickled mass) => Result (Returned mass) fs []
  | Some Undeserializable => Result (Raised (CacheCorrupt path)) fs []
  | None => Result (Raised (FileNotFound path)) fs []
  end.

(** Modelled from the spec: [helper_general.pickle_write] is not in the
    embedded file. "[write(accession, mass)]: persists the value; overwrites
    are permitted." *)
Definition pickle_write (path : string) (mass : float) : M unit := fun fs =>
  Result (Returned tt) (with_pickle fs path (Pickled mass)) [].

(** Modelled from the spec: [helper_general.json_write] is not in the
    embedded file. "Serializes OutputMapping as a structured-data file [...].
    Overwrites any pre-existing file at that path unconditionally." *)
Definition json_write (path : string) (d : PyDict.t float) : M unit := fun fs =>
  Result (Returned tt) (with_file fs path (JsonMapping d)) [].

(** ** The function *)

Definition cache_basepath : string := "./_cache/uniprot/".
Arguments cache_basepath : simpl never.

Definition uniprot_query_url (uniprot_id : string) : string :=
  "https://www.ebi.ac.uk/proteins/api/proteins/" +:+ uniprot_id.
Arguments uniprot_query_url : simpl never.

Definition accept_json : PyDict.t string := [("Accept", "application/json")].

Definition output_suffix : string := "_protein_id_mass_mapping.json".

(** Lines 63-71, the body of the loop over [model.genes]. *)
Definition group_gene (mapping : PyDict.t (list string)) (gene : cobra.Gene)
  : PyDict.t (list string) :=
  match cobra.annotation gene !! "uniprot" with
  | None => mapping
  | Some uniprot_id =>
      match PyDict.get mapping uniprot_id with
      | Some protein_ids =>
          PyDict.set mapping uniprot_id (protein_ids ++ [cobra.id gene])
      | None => PyDict.set mapping uniprot_id [cobra.id gene]
      end
  end.

(** Lines 62-71: [uniprot_id_protein_id_mapping]. *)
Definition uniprot_id_protein_id_mapping (model : cobra.Model)
  : PyDict.t (list string) :=
  fold_left group_gene (cobra.genes model) PyDict.empty.

Section remote.

(** The services outside the program: [requests.get] ([None] when it
    raises), [json.loads] ([None] when it raises) and [float] on a [str]
    ([None] when it raises). *)
Variable requests_get : string -> PyDict.t string -> option Response.
Variable json_loads : string -> option json.
Variable float_of_str : string -> option float.

(** The builtin [float]: [None] stands for the exception it raises. *)
Definition py_float (j : json) : option float :=
  match j with
  | JFloat x => Some x
  | JInt z => float_of_int z
  | JBool b => Some (if b then 1%float else 0%float)
  | JString s => float_of_str s
  | JNull | JArray _ | JObject _ => None
  end.

(** Lines 103-109, after the request returned: the mass the [try] block
    stores, [None] when any step raises. *)
Definition mass_of_response (uniprot_response : Response) : option float :=
  if negb (ok uniprot_response) then None
  else
    parsed ← json_loads (text uniprot_response);
    sequence ← subscript parsed "sequence";
    mass ← subscript sequence "mass";
    py_float mass.

(** Lines 100-112: the [try] block as a whole. *)
Definition lookup_mass (uniprot_id : string) : option float :=
  requests_get (uniprot_query_url uniprot_id) accept_json ≫= mass_of_response.

(** Lines 86-119, the body of the loop over [uniprot_ids]. *)
Definition resolve_one (cache_files : list string)
    (mass_mapping : PyDict.t float) (uniprot_id : string) : M (PyDict.t float) :=
  if bool_decide (uniprot_id ∈ cache_files) then
    let cache_filepath := cache_basepath +:+ uniprot_id in
    mass <- pickle_load cache_filepath ;;
    let mass_mapping := PyDict.set mass_mapping uniprot_id mass in
    print [PStr (uniprot_id +:+ ":"); PFloat mass] ;;
    ret mass_mapping
  else
    print [PStr ("UniProt search for: " +:+ uniprot_id)] ;;
    emit (Get (uniprot_query_url uniprot_id) accept_json) ;;
    let mass_mapping :=
      match lookup_mass uniprot_id with
      | Some mass => PyDict.set mass_mapping uniprot_id mass
      | None => mass_mapping
      end in
    match PyDict.get mass_mapping uniprot_id with
    | Some mass => pickle_write (cache_basepath +:+ uniprot_id) mass
    | None => ret tt
    end ;;
    sleep 0.4 ;;
    ret mass_mapping.

(** Line 130, the body of the loop over [protein_ids]; reading
    [uniprot_id_protein_mass_mapping[uniprot_id]] raises when the key is
    missing. *)
Definition assign_mass (mass_mapping : PyDict.t float) (uniprot_id : string)
    (protein_id_mass_mapping : PyDict.t float) (protein_id : string)
  : M (PyDict.t float) :=
  match PyDict.get mass_mapping uniprot_id with
  | Some mass => ret (PyDict.set protein_id_mass_mapping protein_id mass)
  | None => raise (KeyError uniprot_id)
  end.

(** Lines 123-130, the body of the loop over the resolved accessions. *)
Definition assemble_one (id_mapping : PyDict.t (list string))
    (mass_mapping : PyDict.t float)
    (protein_id_mass_mapping : PyDict.t float) (uniprot_id : string)
  : M (PyDict.t float) :=
  match PyDict.get id_mapping uniprot_id with
  | None =>
      print [PStr ("No mass found for " +:+ uniprot_id +:+ "!")] ;;
      ret protein_id_mass_mapping
  | Some protein_ids =>
      for_each protein_ids (assign_mass mass_mapping uniprot_id)
               protein_id_mass_mapping
  end.

End remote.

Section workflow.

Variable requests_get : string -> PyDict.t string -> option Response.
Variable json_loads : string -> option json.
Variable float_of_str : string -> option float.

Local Abbreviation resolve_one :=
  (resolve_one requests_get json_loads float_of_str).

(** Lines 74-119: the Mass Resolver, [uniprot_id_protein_mass_mapping]. *)
Definition resolver (uniprot_id_protein_id_mapping : PyDict.t (list string))
  : M (PyDict.t float) :=
  ensure_folder_existence "./_cache/" ;;
  ensure_folder_existence cache_basepath ;;
  cache_files <- get_files cache_basepath ;;
  print [PStr "Starting UniProt ID<->Protein mass search using UniProt API..."] ;;
  let uniprot_ids := PyDict.keys uniprot_id_protein_id_mapping in
  for_each uniprot_ids (resolve_one cache_files) PyDict.empty.

(** Lines 122-130: the Mapping Assembler, [protein_id_mass_mapping]. *)
Definition assembler (uniprot_id_protein_id_mapping : PyDict.t (list string))
    (uniprot_id_protein_mass_mapping : PyDict.t float) : M (PyDict.t float) :=
  for_each (PyDict.keys uniprot_id_protein_mass_mapping)
           (assemble_one uniprot_id_protein_id_mapping uniprot_id_protein_mass_mapping)
           PyDict.empty.

(** Lines 56-59 and 134: where the JSON goes. *)
Definition output_path (project_folder project_name : string) : string :=
  let project_folder := standardize_folder project_folder in
  let basepath := project_folder +:+ project_name in
  basepath +:+ output_suffix.

Definition get_protein_mass_mapping (model : cobra.Model)
    (project_folder project_name : string) : M unit :=
  let id_mapping := uniprot_id_protein_id_mapping model in
  mass_mapping <- resolver id_mapping ;;
  protein_id_mass_mapping <- assembler id_mapping mass_mapping ;;
  print [PStr "Protein ID<->Mass mapping done!"] ;;
  json_write (output_path project_folder project_name) protein_id_mass_mapping.

End workflow.

(** ** A fake remote service for the worked examples *)

Module Fixture.

Definition gene (id : string) (uniprot : option string) : cobra.Gene :=
  {| cobra.id := id;
     cobra.annotation :=
       match uniprot with
       | Some a => {[ "uniprot" := a ]}
       | None => ∅
       end |}.

(** What the fake service does with a request for an accession: the
    connection fails, or it answers with a status and a body that may not
    be JSON at all ([None]). *)
Inductive reply : Type :=
| Unreachable
| Answer (ok : bool) (body : option json).

(** The shape of a UniProt entry around its mass field. *)
Definition entry (mass : json) : json :=
  JObject [("accession", JString "x");
           ("sequence", JObject [("length", JInt 3); ("mass", mass)])].

(** The text of an answer is the accession itself; [json_loads] decodes
    it to the body the table holds for that accession. An accession
    outside the table is answered with an error status. *)
Definition service (table : PyDict.t reply) (url : string)
    (headers : PyDict.t string) : option Response :=
  match strip_prefix "https://www.ebi.ac.uk/proteins/api/proteins/" url with
  | Some a =>
      match PyDict.get table a with
      | Some Unreachable => None
      | Some (Answer ok _) => Some {| ok := ok; text := a |}
      | None => Some {| ok := false; text := a |}
      end
  | None => None
  end.

Definition json_loads (table : PyDict.t reply) (s : string) : option json :=
  match PyDict.get table s with
  | Some (Answer _ (Some body)) => Some body
  | _ => None
  end.

Definition float_of_str (s : string) : option float := None.

Definition empty_fs : filesystem :=
  {| folders := ∅; pickles := ∅; files := ∅ |}.

Definition run (table : PyDict.t reply) (genes : list cobra.Gene)
    (project_folder project_name : string) : M unit :=
  get_protein_mass_mapping (service table) (json_loads table) float_of_str
    {| cobra.genes := genes |} project_folder project_name.

Definition lookup (table : PyDict.t reply) : string -> option float :=
  lookup_mass (service table) (json_loads table) float_of_str.

(** The service of the end-to-end example: a mass for P1, no connection
    for P2; then one accession per other way a lookup can fail. *)
Definition table : PyDict.t reply :=
  [("P1", Answer true (Some (entry (JFloat 10.5))));
   ("P2", Unreachable);
   ("P3", Answer false (Some (entry (JFloat 1))));
   ("P4", Answer true None);
   ("P5", Answer true (Some (JObject [("accession", JString "P5")])));
   ("P6", Answer true (Some (entry JNull)));
   ("P7", Answer true (Some (entry (JInt 55234))))].

Definition genes : list cobra.Gene :=
  [gene "g1" (Some "P1"); gene "g2" (Some "P2"); gene "g3" None].

(** Two genes that share an accession. *)
Definition shared_table : PyDict.t reply :=
  [("P1", Answer true (Some (entry (JFloat 55.2))))].

Definition shared_genes : list cobra.Gene :=
  [gene "g1" (Some "P1"); gene "g2" (Some "P1")].

(** An accession whose lookup fails, alone. *)
Definition lone_table : PyDict.t reply := [("P2", Unreachable)].

Definition lone_genes : list cobra.Gene := [gene "g2" (Some "P2")].

(** A cache that holds a record for P1 and for P2. *)
Definition full_fs : filesystem :=
  {| folders := ∅;
     pickles := {[ "./_cache/uniprot/P1" := Pickled 10.5;
                   "./_cache/uniprot/P2" := Pickled 20.25 ]};
     files := ∅ |}.

(** A cache whose record for P1 cannot be deserialized. *)
Definition corrupt_fs : filesystem :=
  {| folders := ∅;
     pickles := {[ "./_cache/uniprot/P1" := Undeserializable ]};
     files := ∅ |}.

(** An output file left by something else. *)
Definition stale_fs : filesystem :=
  {| folders := ∅;
     pickles := ∅;
     files := {[ "out/proj_protein_id_mass_mapping.json" := Other "stale" ]} |}.

End Fixture.

(** ** Vocabulary of the statements *)

(** The accession a gene is annotated with, if any. *)
Definition accession (gene : cobra.Gene) : option string :=
  cobra.annotation gene !! "uniprot".

(** The identifiers of the genes annotated with accession [a], in the
    order of [model.genes]. *)
Definition members (genes : list cobra.Gene) (a : string) : list string :=
  cobra.id <$> filter (fun gene => accession gene = Some a) genes.

(** The record the cache holds for accession [a]. *)
Definition cached (fs : filesystem) (a : string) : option pickle_file :=
  pickles fs !! (cache_basepath +:+ a).

(** The cache holds a record for [a] that cannot be deserialized. *)
Definition corrupt (fs : filesystem) (a : string) : bool :=
  match cached fs a with
  | Some Undeserializable => true
  | _ => false
  end.

(** None of the accessions [ids] has an undeserializable record. *)
Definition intact (fs : filesystem) (ids : list string) : Prop :=
  Forall (fun a => corrupt fs a = false) ids.

(** The file system once the two cache folders are ensured. *)
Definition with_cache_folders (fs : filesystem) : filesystem :=
  with_folder (with_folder fs "./_cache/") cache_basepath.

Definition starting : event :=
  Print [PStr "Starting UniProt ID<->Protein mass search using UniProt API..."].

Definition done_message : event :=
  Print [PStr "Protein ID<->Mass mapping done!"].

(** The listing [cache_files] tells, for each of the accessions [ids],
    whether the file system has a record for it. *)
Definition listed (cache_files : list string) (fs : filesystem)
    (ids : list string) : Prop :=
  forall a, a ∈ ids -> (a ∈ cache_files <-> is_Some (cached fs a)).

Definition is_get (e : event) : bool :=
  match e with Get _ _ => true | _ => false end.

Definition is_sleep (e : event) : bool :=
  match e with Sleep _ => true | _ => false end.

(** [e] is a request for accession [a]. *)
Definition is_get_for (a : string) (e : event) : bool :=
  match e with
  | Get url _ => bool_decide (url = uniprot_query_url a)
  | _ => false
  end.

(** How many requests for accession [a] a log holds. *)
Definition requests_for (a : string) (l : list event) : nat :=
  length (filter (fun e => is_get_for a e = true) l).

(** The message of the assembler's [except] branch. *)
Definition no_mass_found (uniprot_id : string) : event :=
  Print [PStr ("No mass found for " +:+ uniprot_id +:+ "!")].

Section vocabulary.

Variable requests_get : string -> PyDict.t string -> option Response.
Variable json_loads : string -> option json.
Variable float_of_str : string -> option float.

(** The mass an accession resolves to on a file system: the cached one
    when the cache has a readable record, the one the remote lookup gives
    when the cache has no record. *)
Definition resolution (fs : filesystem) (a : string) : option float :=
  match cached fs a with
  | Some (Pickled mass) => Some mass
  | Some Undeserializable => None
  | None => lookup_mass requests_get json_loads float_of_str a
  end.

(** Why the lookup of an accession records no mass: the request raises,
    the status is not a success, the body is not JSON, the mass field is
    missing, or [float] rejects it. *)
Inductive lookup_failure (a : string) : Prop :=
| NetworkError :
    requests_get (uniprot_query_url a) accept_json = None ->
    lookup_failure a
| BadStatus r :
    requests_get (uniprot_query_url a) accept_json = Some r ->
    ok r = false ->
    lookup_failure a
| MalformedResponse r :
    requests_get (uniprot_query_url a) accept_json = Some r ->
    ok r = true -> json_loads (text r) = None ->
    lookup_failure a
| MissingMass r parsed :
    requests_get (uniprot_query_url a) accept_json = Some r ->
    ok r = true -> json_loads (text r) = Some parsed ->
    subscript parsed "sequence" ≫= (fun sequence => subscript sequence "mass") = None ->
    lookup_failure a
| UnparseableMass r parsed sequence mass :
    requests_get (uniprot_query_url a) accept_json = Some r ->
    ok r = true -> json_loads (text r) = Some parsed ->
    subscript parsed "sequence" = Some sequence ->
    subscript sequence "mass" = Some mass ->
    py_float float_of_str mass = None ->
    lookup_failure a.

(** The dictionary of the resolved accessions among [ids], in their order. *)
Definition resolved_of (fs : filesystem) (ids : list string) : PyDict.t float :=
  omap (fun a => pair a <$> resolution fs a) ids.

(** What resolving accession [a] lets one observe. *)
Definition events_of (fs : filesystem) (a : string) : list event :=
  match cached fs a with
  | Some (Pickled mass) => [Print [PStr (a +:+ ":"); PFloat mass]]
  | Some Undeserializable => []
  | None =>
      [Print [PStr ("UniProt search for: " +:+ a)];
       Get (uniprot_query_url a) accept_json;
       Sleep 0.4]
  end.

(** The record at path [p] once the accessions [ids] are resolved: what was
    there, or the mass fetched for the accession that [p] names. *)
Definition pickles_after (fs : filesystem) (ids : list string) (p : string)
  : option pickle_file :=
  match pickles fs !! p with
  | Some x => Some x
  | None =>
      a ← strip_prefix cache_basepath p;
      if decide (a ∈ ids)
      then Pickled <$> lookup_mass requests_get json_loads float_of_str a
      else None
  end.

(** The dictionary with [mass] assigned to one more identifier. *)
Definition with_mass (mass : float) (out : PyDict.t float) (protein_id : string)
  : PyDict.t float :=
  PyDict.set out protein_id mass.

(** The assembly as a function of the two dictionaries. *)
Definition assemble_step (id_mapping : PyDict.t (list string))
    (mass_mapping : PyDict.t float) (out : PyDict.t float) (a : string)
  : PyDict.t float :=
  match PyDict.get id_mapping a, PyDict.get mass_mapping a with
  | Some protein_ids, Some mass => fold_left (with_mass mass) protein_ids out
  | _, _ => out
  end.

(** What assembling accession [a] lets one observe. *)
Definition assembly_events (id_mapping : PyDict.t (list string)) (a : string)
  : list event :=
  if PyDict.mem a id_mapping then [] else [no_mass_found a].

Definition assembled (id_mapping : PyDict.t (list string))
    (mass_mapping : PyDict.t float) : PyDict.t float :=
  fold_left (assemble_step id_mapping mass_mapping)
            (PyDict.keys mass_mapping) PyDict.empty.

End vocabulary.

(** ** Vocabulary of the further properties *)

(** The elements of [l] in the order of their first occurrence, those of
    [seen] left out. *)
Fixpoint first_occurrences (seen l : list string) : list string :=
  match l with
  | [] => []
  | a :: l' =>
      if decide (a ∈ seen) then first_occurrences seen l'
      else a :: first_occurrences (seen ++ [a]) l'
  end.

(** The cache holds some record for accession [a]. *)
Definition has_record (fs : filesystem) (a : string) : bool :=
  match cached fs a with
  | Some _ => true
  | None => false
  end.

(** How many events of a kind a log holds. *)
Definition count_events (kind : event -> bool) (l : list event) : nat :=
  length (filter (fun e => kind e = true) l).

Section sbml.

Variable requests_get : string -> PyDict.t string -> option Response.
Variable json_loads : string -> option json.
Variable float_of_str : string -> option float.

(** [cobra.io.read_sbml_model]: [None] when it raises. *)
Variable read_sbml_model : string -> option cobra.Model.

(** Lines 137-147. [None]: reading the model raised, before anything else
    was done. *)
Definition get_protein_mass_mapping_with_sbml
    (sbml_path project_folder project_name : string)
  : filesystem -> option (result unit) := fun fs =>
  model ← read_sbml_model sbml_path;
  Some (get_protein_mass_mapping requests_get json_loads float_of_str
          model project_folder project_name fs).

End sbml.

(** ** Inputs for the further properties *)

Module Scenario.

(** Three annotated genes, resolved in the order P1, P2, P7. *)
Definition genes : list cobra.Gene :=
  [Fixture.gene "g1" (Some "P1"); Fixture.gene "g2" (Some "P2");
   Fixture.gene "g4" (Some "P7")].

(** A cache whose record for P2 cannot be deserialized. *)
Definition broken_fs : filesystem :=
  {| folders := ∅;
     pickles := {[ "./_cache/uniprot/P2" := Undeserializable ]};
     files := ∅ |}.

(** Genes without annotation. *)
Definition bare_genes : list cobra.Gene :=
  [Fixture.gene "g3" None; Fixture.gene "g5" None].

(** The grouping of the end-to-end example. *)
Definition grouping : PyDict.t (list string) := [("P1", ["g1"]); ("P2", ["g2"])].

(** A model source that knows one file. *)
Definition read_sbml_model (sbml_path : string) : option cobra.Model :=
  if decide (sbml_path = "model.xml") then Some {| cobra.genes := Fixture.genes |}
  else None.

End Scenario.

(** ** Facts about dictionaries *)

Module PyDictFacts.
Import PyDict.

Section facts.
Context {V : Type}.
Implicit Types (d : t V) (k : string) (v : V).

Lemma get_set_eq d k v : get (set d k v) k = Some v.
Proof.
  induction d as [|[k' v'] d IH]; simpl.
  - by rewrite decide_True.
  - destruct (decide (k = k')) as [->|Hne]; simpl.
    + by rewrite decide_True.
    + by rewrite decide_False.
Qed.

Lemma get_set_ne d k k' v : k ≠ k' -> get (set d k v) k' = get d k'.
Proof.
  intros Hne. induction d as [|[k0 v0] d IH]; simpl.
  - by rewrite decide_False.
  - destruct (decide (k = k0)) as [->|Hne0]; simpl.
    + by rewrite !decide_False.
    + by rewrite IH.
Qed.

Lemma elem_of_keys d k : k ∈ keys d <-> is_Some (get d k).
Proof.
  unfold keys. induction d as [|[k' v'] d IH]; csimpl.
  - split; [by intros ?%elem_of_nil | by intros [? ?]].
  - rewrite elem_of_cons. destruct (decide (k = k')) as [->|Hne].
    + split; eauto.
    + rewrite IH. split; [intros [?|?]; done | by right].
Qed.

Lemma not_elem_of_keys d k : k ∉ keys d <-> get d k = None.
Proof. rewrite elem_of_keys, eq_None_not_Some. done. Qed.

Lemma mem_true d k : mem k d = true <-> k ∈ keys d.
Proof.
  rewrite elem_of_keys. unfold mem.
  destruct (get d k); split; [by eauto|done|done|by intros [? ?]].
Qed.

Lemma set_fresh d k v : k ∉ keys d -> set d k v = d ++ [(k, v)].
Proof.
  unfold keys. induction d as [|[k' v'] d IH]; csimpl; [done|].
  rewrite not_elem_of_cons. intros [Hne Hnin].
  rewrite decide_False by done. by rewrite IH.
Qed.

Lemma keys_set d k v :
  keys (set d k v) = if mem k d then keys d else keys d ++ [k].
Proof.
  unfold keys, mem. induction d as [|[k' v'] d IH]; csimpl; [done|].
  destruct (decide (k = k')) as [->|Hne]; csimpl; [done|].
  rewrite IH. by destruct (get d k).
Qed.

Lemma elem_of_keys_set d k k' v : k' ∈ keys (set d k v) <-> k' = k \/ k' ∈ keys d.
Proof.
  rewrite !elem_of_keys.
  destruct (decide (k = k')) as [->|Hne].
  - rewrite get_set_eq. naive_solver.
  - rewrite get_set_ne by done. naive_solver.
Qed.

Lemma NoDup_keys_set d k v : NoDup (keys d) -> NoDup (keys (set d k v)).
Proof.
  intros Hnd. rewrite keys_set.
  destruct (mem k d) eqn:Hmem; [done|].
  apply NoDup_app. split_and!; [done| |apply NoDup_singleton].
  intros x Hx ->%list_elem_of_singleton.
  apply mem_true in Hx. congruence.
Qed.

Lemma get_app d d' k :
  get (d ++ d') k = match get d k with Some v => Some v | None => get d' k end.
Proof.
  induction d as [|[k' v'] d IH]; simpl; [done|].
  by destruct (decide (k = k')).
Qed.

End facts.

End PyDictFacts.

(** ** Identifier Grouping *)

Module Grouping.
Import PyDict PyDictFacts.

Lemma members_cons gene genes a :
  members (gene :: genes) a =
    if decide (accession gene = Some a) then cobra.id gene :: members genes a
    else members genes a.
Proof.
  unfold members. rewrite filter_cons.
  by destruct (decide (accession gene = Some a)).
Qed.

Lemma elem_of_members genes a p :
  p ∈ members genes a <->
  exists gene, gene ∈ genes /\ cobra.id gene = p /\ accession gene = Some a.
Proof.
  unfold members. rewrite list_elem_of_fmap. split.
  - intros (g & -> & [Ha Hg]%list_elem_of_filter). eauto.
  - intros (g & Hg & <- & Ha). exists g. split; [done|].
    by apply list_elem_of_filter.
Qed.

(** One step of the grouping loop, seen from a fixed accession. *)
Lemma get_group_gene mapping gene a :
  get (group_gene mapping gene) a =
    if decide (accession gene = Some a)
    then Some (default [] (get mapping a) ++ [cobra.id gene])
    else get mapping a.
Proof.
  unfold group_gene, accession.
  destruct (cobra.annotation gene !! "uniprot") as [u|] eqn:Hu.
  - destruct (decide (Some u = Some a)) as [[= ->]|Hne].
    + destruct (get mapping a) as [ids|] eqn:Hget; by rewrite get_set_eq.
    + assert (u ≠ a) by congruence.
      destruct (get mapping u); by rewrite get_set_ne.
  - by rewrite decide_False.
Qed.

Lemma get_fold_group genes mapping a :
  get (fold_left group_gene genes mapping) a =
    match members genes a with
    | [] => get mapping a
    | ids => Some (default [] (get mapping a) ++ ids)
    end.
Proof.
  revert mapping. induction genes as [|g genes IH]; intros mapping; simpl.
  - done.
  - rewrite IH, get_group_gene, members_cons.
    destruct (decide (accession g = Some a)) as [Ha|Ha]; simpl.
    + destruct (members genes a); simpl; [done|].
      by rewrite <- app_assoc.
    + done.
Qed.

(** The group of an accession is exactly the genes annotated with it. *)
Lemma get_grouping model a :
  get (uniprot_id_protein_id_mapping model) a =
    match members (cobra.genes model) a with
    | [] => None
    | ids => Some ids
    end.
Proof.
  unfold uniprot_id_protein_id_mapping. rewrite get_fold_group. done.
Qed.

Lemma get_grouping_Some model a ids :
  get (uniprot_id_protein_id_mapping model) a = Some ids ->
  ids = members (cobra.genes model) a.
Proof.
  rewrite get_grouping. destruct (members _ a); congruence.
Qed.

Lemma NoDup_keys_group_gene mapping gene :
  NoDup (keys mapping) -> NoDup (keys (group_gene mapping gene)).
Proof.
  intros Hnd. unfold group_gene.
  destruct (cobra.annotation gene !! "uniprot"); [|done].
  destruct (get mapping _); by apply NoDup_keys_set.
Qed.

Lemma NoDup_keys_grouping model :
  NoDup (keys (uniprot_id_protein_id_mapping model)).
Proof.
  unfold uniprot_id_protein_id_mapping.
  assert (Hnil : NoDup (keys (@empty (list string)))) by constructor.
  revert Hnil. generalize (@empty (list string)).
  induction (cobra.genes model) as [|g genes IH]; intros mapping Hnd; simpl.
  - done.
  - by apply IH, NoDup_keys_group_gene.
Qed.

(** An accession is a key of the grouping exactly when some gene carries it. *)
Lemma elem_of_keys_grouping model a :
  a ∈ keys (uniprot_id_protein_id_mapping model) <->
  exists gene, gene ∈ cobra.genes model /\ accession gene = Some a.
Proof.
  rewrite elem_of_keys, get_grouping. split.
  - destruct (members _ a) as [|p ids] eqn:Hm; [by intros [? ?]|].
    intros _. assert (Hp : p ∈ members (cobra.genes model) a).
    { rewrite Hm. by left. }
    apply elem_of_members in Hp as (g & ? & ? & ?). eauto.
  - intros (g & Hg & Ha).
    assert (Hp : cobra.id g ∈ members (cobra.genes model) a).
    { apply elem_of_members. eauto. }
    destruct (members _ a); [by apply elem_of_nil in Hp|eauto].
Qed.

(** In a well-formed model a gene identifier names one gene. *)
Lemma well_formed_inj model g1 g2 :
  cobra.well_formed model ->
  g1 ∈ cobra.genes model -> g2 ∈ cobra.genes model ->
  cobra.id g1 = cobra.id g2 -> g1 = g2.
Proof.
  unfold cobra.well_formed.
  induction (cobra.genes model) as [|g genes IH]; csimpl.
  - by intros _ ?%elem_of_nil.
  - rewrite NoDup_cons. intros [Hnin Hnd].
    rewrite !elem_of_cons. intros [->|H1] [->|H2] Heq; [done| | |by apply IH].
    + exfalso. apply Hnin. rewrite Heq. by apply list_elem_of_fmap_2.
    + exfalso. apply Hnin. rewrite <- Heq. by apply list_elem_of_fmap_2.
Qed.

(** So a gene identifier belongs to the group of one accession only. *)
Lemma members_disjoint model a b p :
  cobra.well_formed model ->
  p ∈ members (cobra.genes model) a -> p ∈ members (cobra.genes model) b ->
  a = b.
Proof.
  intros Hwf (g1 & Hg1 & Hid1 & Ha)%elem_of_members
             (g2 & Hg2 & Hid2 & Hb)%elem_of_members.
  assert (g1 = g2) as -> by (eapply well_formed_inj; eauto; congruence).
  congruence.
Qed.

End Grouping.

(** ** The monad and the helpers *)

Module Effects.

Lemma strip_prefix_app p s : strip_prefix p (p +:+ s) = Some s.
Proof. induction p as [|a p IH]; simpl; [done|]. by rewrite decide_True. Qed.

Lemma strip_prefix_Some p s r : strip_prefix p s = Some r -> s = p +:+ r.
Proof.
  revert s. induction p as [|a p IH]; intros s; simpl.
  - by intros [= ->].
  - destruct s as [|b s]; [done|].
    destruct (decide (a = b)) as [->|]; [|done].
    by intros ->%IH.
Qed.

Lemma cache_path_inj a b : cache_basepath +:+ a = cache_basepath +:+ b -> a = b.
Proof. apply (inj (String.app cache_basepath)). Qed.

(** The listing of the cache folder names exactly the stored records. *)
Lemma elem_of_get_files fs a :
  a ∈ omap (strip_prefix cache_basepath) (map_to_list (pickles fs)).*1 <->
  is_Some (cached fs a).
Proof.
  unfold cached. rewrite list_elem_of_omap. split.
  - intros (p & Hp & Hstrip). apply strip_prefix_Some in Hstrip as ->.
    apply list_elem_of_fmap in Hp as ([p x] & -> & Hpx).
    apply elem_of_map_to_list in Hpx. simpl. eauto.
  - intros [x Hx]. exists (cache_basepath +:+ a). split.
    + apply list_elem_of_fmap. exists (cache_basepath +:+ a, x). split; [done|].
      by apply elem_of_map_to_list.
    + apply strip_prefix_app.
Qed.

Lemma bind_returned {A B} (m : M A) (k : A -> M B) fs x fs' l :
  m fs = Result (Returned x) fs' l ->
  bind m k fs = Result (value (k x fs')) (final (k x fs')) (l ++ log (k x fs')).
Proof. unfold bind. by intros ->. Qed.

Lemma bind_raised {A B} (m : M A) (k : A -> M B) fs e fs' l :
  m fs = Result (Raised e) fs' l ->
  bind m k fs = Result (Raised e) fs' l.
Proof. unfold bind. by intros ->. Qed.

Lemma ends_with_separator_app s : ends_with_separator (s +:+ "/") = true.
Proof.
  induction s as [|a s IH]; [done|].
  change (String a s +:+ "/") with (String a (s +:+ "/")).
  destruct s as [|b s]; [done|]. exact IH.
Qed.

(** The normalized folder ends with a separator, and a folder that
    already does is left as it is. *)
Lemma standardize_folder_separator folder :
  ends_with_separator (standardize_folder folder) = true.
Proof.
  unfold standardize_folder.
  destruct (ends_with_separator folder) eqn:He; [done|].
  apply ends_with_separator_app.
Qed.

End Effects.

Arguments strip_prefix : simpl never.

(** ** Mass Resolver *)

Module Resolver.
Import PyDict PyDictFacts Effects.

Lemma cached_with_pickle_ne fs a b x :
  a ≠ b -> cached (with_pickle fs (cache_basepath +:+ a) x) b = cached fs b.
Proof.
  intros Hne. unfold cached, with_pickle. simpl.
  apply lookup_insert_ne. intros ?%cache_path_inj. done.
Qed.

Lemma cached_with_pickle_eq fs a x :
  cached (with_pickle fs (cache_basepath +:+ a) x) a = Some x.
Proof. unfold cached, with_pickle. simpl. apply lookup_insert_eq. Qed.

Lemma events_of_ext fs fs' a :
  cached fs a = cached fs' a -> events_of fs a = events_of fs' a.
Proof. unfold events_of. by intros ->. Qed.

Lemma corrupt_ext fs fs' a :
  cached fs a = cached fs' a -> corrupt fs a = corrupt fs' a.
Proof. unfold corrupt. by intros ->. Qed.

Lemma bind_events_of_ext fs fs' ids :
  (forall a, a ∈ ids -> cached fs a = cached fs' a) ->
  ids ≫= events_of fs = ids ≫= events_of fs'.
Proof.
  induction ids as [|a ids IH]; intros Hext; csimpl; [done|].
  rewrite (events_of_ext fs fs' a) by (apply Hext; left).
  rewrite IH; [done|]. intros b Hb. apply Hext. by right.
Qed.

Lemma listed_with_pickle cf fs a ids x :
  a ∉ ids -> listed cf fs (a :: ids) ->
  listed cf (with_pickle fs (cache_basepath +:+ a) x) ids.
Proof.
  intros Hnin Hl b Hb. rewrite cached_with_pickle_ne by set_solver.
  apply Hl. by right.
Qed.

Lemma intact_with_pickle fs a ids x :
  a ∉ ids -> intact fs ids ->
  intact (with_pickle fs (cache_basepath +:+ a) x) ids.
Proof.
  unfold intact. rewrite !Forall_forall. intros Hnin Hi b Hb.
  rewrite <- (Hi b Hb). apply corrupt_ext, cached_with_pickle_ne. set_solver.
Qed.

Lemma listed_get_files fs ids :
  listed (omap (strip_prefix cache_basepath) (map_to_list (pickles fs)).*1)
         (with_cache_folders fs) ids.
Proof. intros a _. apply (elem_of_get_files fs a). Qed.

Section resolver.

Variable requests_get : string -> PyDict.t string -> option Response.
Variable json_loads : string -> option json.
Variable float_of_str : string -> option float.

Local Abbreviation lookup_mass :=
  (lookup_mass requests_get json_loads float_of_str).
Local Abbreviation resolve_one :=
  (resolve_one requests_get json_loads float_of_str).
Local Abbreviation resolution :=
  (resolution requests_get json_loads float_of_str).
Local Abbreviation resolved_of :=
  (resolved_of requests_get json_loads float_of_str).
Local Abbreviation pickles_after :=
  (pickles_after requests_get json_loads float_of_str).

Implicit Types (fs : filesystem) (a b : string) (ids cf : list string)
  (acc : PyDict.t float).

(** *** One accession *)

Lemma resolve_one_hit cf acc a fs mass :
  a ∈ cf -> cached fs a = Some (Pickled mass) ->
  resolve_one cf acc a fs =
    Result (Returned (set acc a mass)) fs
           [Print [PStr (a +:+ ":"); PFloat mass]].
Proof.
  intros Hin Hc. unfold resolve_one, cached in *.
  rewrite bool_decide_eq_true_2 by done.
  unfold bind, pickle_load. rewrite Hc. reflexivity.
Qed.

Lemma resolve_one_corrupt cf acc a fs :
  a ∈ cf -> cached fs a = Some Undeserializable ->
  resolve_one cf acc a fs =
    Result (Raised (CacheCorrupt (cache_basepath +:+ a))) fs [].
Proof.
  intros Hin Hc. unfold resolve_one, cached in *.
  rewrite bool_decide_eq_true_2 by done.
  unfold bind, pickle_load. rewrite Hc. reflexivity.
Qed.

Lemma resolve_one_fetched cf acc a fs mass :
  a ∉ cf -> lookup_mass a = Some mass ->
  resolve_one cf acc a fs =
    Result (Returned (set acc a mass))
           (with_pickle fs (cache_basepath +:+ a) (Pickled mass))
           [Print [PStr ("UniProt search for: " +:+ a)];
            Get (uniprot_query_url a) accept_json;
            Sleep 0.4].
Proof.
  intros Hin Hl. unfold resolve_one.
  rewrite bool_decide_eq_false_2 by done.
  rewrite Hl, get_set_eq. reflexivity.
Qed.

Lemma resolve_one_failed cf acc a fs :
  a ∉ cf -> lookup_mass a = None -> get acc a = None ->
  resolve_one cf acc a fs =
    Result (Returned acc) fs
           [Print [PStr ("UniProt search for: " +:+ a)];
            Get (uniprot_query_url a) accept_json;
            Sleep 0.4].
Proof.
  intros Hin Hl Hacc. unfold resolve_one.
  rewrite bool_decide_eq_false_2 by done.
  rewrite Hl, Hacc. reflexivity.
Qed.

(** *** What a write leaves alone *)

Lemma resolution_ext fs fs' a :
  cached fs a = cached fs' a -> resolution fs a = resolution fs' a.
Proof. unfold resolution. by intros ->. Qed.

Lemma resolved_of_ext fs fs' ids :
  (forall a, a ∈ ids -> cached fs a = cached fs' a) ->
  resolved_of fs ids = resolved_of fs' ids.
Proof.
  unfold resolved_of. induction ids as [|a ids IH]; intros Hext; csimpl; [done|].
  rewrite (resolution_ext fs fs' a) by (apply Hext; left).
  rewrite IH; [done|]. intros b Hb. apply Hext. by right.
Qed.

Lemma resolved_of_ext_resolution fs fs' ids :
  (forall a, a ∈ ids -> resolution fs a = resolution fs' a) ->
  resolved_of fs ids = resolved_of fs' ids.
Proof.
  unfold resolved_of. induction ids as [|a ids IH]; intros Hext; csimpl; [done|].
  rewrite (Hext a) by left.
  rewrite IH; [done|]. intros b Hb. apply Hext. by right.
Qed.

Lemma keys_resolved_of fs ids a :
  a ∈ keys (resolved_of fs ids) <-> a ∈ ids /\ is_Some (resolution fs a).
Proof.
  unfold keys, resolved_of. rewrite list_elem_of_fmap. split.
  - intros ([b m] & -> & (c & Hc & Hm)%list_elem_of_omap). simpl.
    destruct (resolution fs c) as [m'|] eqn:Hr; simplify_eq/=. eauto.
  - intros [Ha [m Hm]]. exists (a, m). split; [done|].
    apply list_elem_of_omap. exists a. by rewrite Hm.
Qed.

Lemma get_resolved_of fs ids a :
  get (resolved_of fs ids) a = if decide (a ∈ ids) then resolution fs a else None.
Proof.
  unfold resolved_of. induction ids as [|b ids IH]; csimpl; [done|].
  destruct (decide (a = b)) as [->|Hne].
  - rewrite decide_True by left.
    destruct (resolution fs b) as [m|] eqn:Hr; csimpl.
    + by rewrite decide_True.
    + rewrite IH. case_decide; [|done].
      done.
  - destruct (resolution fs b) as [m|] eqn:Hr; csimpl.
    + rewrite decide_False by done. rewrite IH.
      repeat case_decide; try done; set_solver.
    + rewrite IH. repeat case_decide; try done; set_solver.
Qed.

(** *** The loop over the accessions *)

Lemma pickles_after_nil fs p : pickles_after fs [] p = pickles fs !! p.
Proof.
  unfold pickles_after. destruct (pickles fs !! p); [done|].
  by destruct (strip_prefix cache_basepath p).
Qed.

(** Resolving [a] first, with a successful fetch, then [ids]. *)
Lemma pickles_after_fetched fs a ids mass p :
  cached fs a = None -> lookup_mass a = Some mass ->
  pickles_after (with_pickle fs (cache_basepath +:+ a) (Pickled mass)) ids p =
  pickles_after fs (a :: ids) p.
Proof.
  intros Hc Hl. unfold pickles_after, with_pickle. simpl.
  destruct (decide (p = cache_basepath +:+ a)) as [->|Hne].
  - rewrite lookup_insert_eq. unfold cached in Hc. rewrite Hc.
    rewrite strip_prefix_app. simpl.
    rewrite decide_True by left. by rewrite Hl.
  - rewrite lookup_insert_ne by done.
    destruct (pickles fs !! p); [done|].
    destruct (strip_prefix cache_basepath p) as [b|] eqn:Hb; [|done]. simpl.
    apply strip_prefix_Some in Hb.
    assert (b ≠ a) by congruence.
    repeat case_decide; try done; set_solver.
Qed.

(** Resolving [a] first, without writing, then [ids]. *)
Lemma pickles_after_kept fs a ids p :
  (cached fs a = None -> lookup_mass a = None) ->
  pickles_after fs ids p = pickles_after fs (a :: ids) p.
Proof.
  intros Hc. unfold pickles_after.
  destruct (pickles fs !! p) eqn:Hp; [done|].
  destruct (strip_prefix cache_basepath p) as [b|] eqn:Hb; [|done]. simpl.
  apply strip_prefix_Some in Hb. subst p.
  destruct (decide (b = a)) as [->|Hne].
  - rewrite (decide_True (P := a ∈ a :: ids)) by left.
    rewrite Hc by done. by case_decide.
  - repeat case_decide; try done; set_solver.
Qed.

(** When no accession has an undeserializable record, the loop returns
    the resolved accessions in order, and writes what it fetched. *)
Lemma for_each_resolve cf ids acc fs :
  NoDup ids -> listed cf fs ids -> intact fs ids ->
  (forall a, a ∈ ids -> a ∉ keys acc) ->
  let r := for_each ids (resolve_one cf) acc fs in
  value r = Returned (acc ++ resolved_of fs ids) /\
  folders (final r) = folders fs /\
  files (final r) = files fs /\
  (forall p, pickles (final r) !! p = pickles_after fs ids p) /\
  log r = ids ≫= events_of fs.
Proof.
  revert acc fs. induction ids as [|a ids IH]; intros acc fs Hnd Hl Hi Hacc r.
  - subst r. simpl. rewrite app_nil_r. split_and!; try done.
    intros p. by rewrite pickles_after_nil.
  - apply NoDup_cons in Hnd as [Hnin Hnd].
    apply Forall_cons in Hi as [Ha Hi].
    assert (Hfresh : a ∉ keys acc) by (apply Hacc; left).
    assert (Hacc' : forall m b, b ∈ ids -> b ∉ keys (set acc a m)).
    { intros m b Hb. rewrite elem_of_keys_set. intros [->|?]; [done|].
      by apply (Hacc b); [right|]. }
    pose proof (Hl a (list_elem_of_here _ _)) as Hla.
    subst r. cbn [for_each]. unfold resolved_of. csimpl.
    unfold resolution at 1, events_of at 1. unfold corrupt in Ha.
    destruct (cached fs a) as [[mass|]|] eqn:Hc; [| done |].
    + (* a readable record *)
      assert (a ∈ cf) by (apply Hla; eauto).
      erewrite bind_returned by (by apply resolve_one_hit).
      destruct (IH (set acc a mass) fs) as (Hv & Hfo & Hfi & Hpk & Hlog);
        [done|by intros b Hb; apply Hl; right|done|by apply Hacc'|].
      simpl. split_and!; [|done|done| |by rewrite Hlog].
      * rewrite Hv, set_fresh by done. by rewrite <- app_assoc.
      * intros p. rewrite Hpk. apply pickles_after_kept. congruence.
    + (* no record: the remote lookup *)
      assert (a ∉ cf) by (rewrite Hla; by intros [? ?]).
      destruct (lookup_mass a) as [mass|] eqn:Hlk.
      * erewrite bind_returned by (by apply resolve_one_fetched).
        destruct (IH (set acc a mass)
                    (with_pickle fs (cache_basepath +:+ a) (Pickled mass)))
          as (Hv & Hfo & Hfi & Hpk & Hlog);
          [done|by apply listed_with_pickle|by apply intact_with_pickle
          |by apply Hacc'|].
        simpl. split_and!; [|done|done| |].
        -- rewrite Hv, set_fresh by done. rewrite <- app_assoc.
           do 3 f_equal. apply resolved_of_ext.
           intros b Hb. apply cached_with_pickle_ne. set_solver.
        -- intros p. rewrite Hpk. by apply pickles_after_fetched.
        -- rewrite Hlog. do 3 f_equal. apply bind_events_of_ext.
           intros b Hb. apply cached_with_pickle_ne. set_solver.
      * erewrite bind_returned
          by (apply resolve_one_failed; [done|done|by apply not_elem_of_keys]).
        destruct (IH acc fs) as (Hv & Hfo & Hfi & Hpk & Hlog);
          [done|by intros b Hb; apply Hl; right|done
          |by intros b Hb; apply Hacc; right|].
        simpl. rewrite Hv, Hfo, Hfi, Hlog. split_and!; try done.
        intros p. rewrite Hpk. by apply pickles_after_kept.
Qed.

(** Whatever the records are: the loop leaves folders, plain files and
    the records that were there as they are, everything it lets one
    observe is due to one of the accessions, and it raises exactly when
    it meets an undeserializable record. *)
Lemma for_each_resolve_any cf ids acc fs :
  NoDup ids -> listed cf fs ids ->
  (forall a, a ∈ ids -> a ∉ keys acc) ->
  let r := for_each ids (resolve_one cf) acc fs in
  folders (final r) = folders fs /\
  files (final r) = files fs /\
  (forall p x, pickles fs !! p = Some x -> pickles (final r) !! p = Some x) /\
  (forall e, e ∈ log r -> exists a, a ∈ ids /\ e ∈ events_of fs a) /\
  (forall e, value r = Raised e ->
     exists b, b ∈ ids /\ corrupt fs b = true /\
               e = CacheCorrupt (cache_basepath +:+ b)) /\
  (forall x, value r = Returned x -> intact fs ids).
Proof.
  revert acc fs. induction ids as [|a ids IH]; intros acc fs Hnd Hl Hacc r.
  - subst r. simpl. split_and!; try done.
    + by intros e ?%elem_of_nil.
    + intros _ _. constructor.
  - apply NoDup_cons in Hnd as [Hnin Hnd].
    assert (Hfresh : a ∉ keys acc) by (apply Hacc; left).
    assert (Hacc' : forall m b, b ∈ ids -> b ∉ keys (set acc a m)).
    { intros m b Hb. rewrite elem_of_keys_set. intros [->|?]; [done|].
      by apply (Hacc b); [right|]. }
    pose proof (Hl a (list_elem_of_here _ _)) as Hla.
    subst r. cbn [for_each].
    destruct (cached fs a) as [[mass|]|] eqn:Hc.
    + (* a readable record *)
      assert (a ∈ cf) by (apply Hla; eauto).
      erewrite bind_returned by (by apply resolve_one_hit).
      destruct (IH (set acc a mass) fs)
        as (Hfo & Hfi & Hpk & Hlog & Hraise & Hret);
        [done|by intros b Hb; apply Hl; right|by apply Hacc'|].
      simpl. split_and!; [done|done|done| | |].
      * intros e [->|He]%elem_of_cons.
        -- exists a. split; [left|]. unfold events_of. rewrite Hc. left.
        -- destruct (Hlog e He) as (b & Hb & Heb). exists b. split; [by right|done].
      * intros e He. destruct (Hraise e He) as (b & Hb & ?). exists b.
        split; [by right|done].
      * intros x Hx. constructor; [|by eapply Hret].
        unfold corrupt. by rewrite Hc.
    + (* an undeserializable record *)
      assert (a ∈ cf) by (apply Hla; eauto).
      erewrite bind_raised by (by apply resolve_one_corrupt).
      simpl. split_and!; try done.
      * by intros e ?%elem_of_nil.
      * intros e [= <-]. exists a. split; [left|]. unfold corrupt. by rewrite Hc.
    + (* no record: the remote lookup *)
      assert (a ∉ cf) by (rewrite Hla; by intros [? ?]).
      destruct (lookup_mass a) as [mass|] eqn:Hlk.
      * erewrite bind_returned by (by apply resolve_one_fetched).
        destruct (IH (set acc a mass)
                    (with_pickle fs (cache_basepath +:+ a) (Pickled mass)))
          as (Hfo & Hfi & Hpk & Hlog & Hraise & Hret);
          [done|by apply listed_with_pickle|by apply Hacc'|].
        simpl. split_and!; [done|done| | | |].
        -- intros p x Hp. apply Hpk. simpl. rewrite lookup_insert_ne; [done|].
           intros <-. unfold cached in Hc. congruence.
        -- intros e He. rewrite !elem_of_cons in He.
           destruct He as [He|[He|[He|He]]];
             [exists a; split; [left|]; unfold events_of; rewrite Hc, He;
              repeat constructor ..|].
           ++ destruct (Hlog e He) as (b & Hb & Heb). exists b. split; [by right|].
              erewrite events_of_ext; [exact Heb|].
              symmetry. apply cached_with_pickle_ne. set_solver.
        -- intros e He. destruct (Hraise e He) as (b & Hb & Hcb & ->). exists b.
           split_and!; [by right| |done].
           rewrite <- Hcb. symmetry. apply corrupt_ext, cached_with_pickle_ne.
           set_solver.
        -- intros x Hx. constructor; [unfold corrupt; by rewrite Hc|].
           specialize (Hret x Hx). unfold intact in *.
           rewrite Forall_forall in *. intros b Hb. rewrite <- (Hret b Hb).
           symmetry. apply corrupt_ext, cached_with_pickle_ne. set_solver.
      * erewrite bind_returned
          by (apply resolve_one_failed; [done|done|by apply not_elem_of_keys]).
        destruct (IH acc fs) as (Hfo & Hfi & Hpk & Hlog & Hraise & Hret);
          [done|by intros b Hb; apply Hl; right
          |by intros b Hb; apply Hacc; right|].
        simpl. split_and!; [done|done|done| | |].
        -- intros e He. rewrite !elem_of_cons in He.
           destruct He as [He|[He|[He|He]]];
             [exists a; split; [left|]; unfold events_of; rewrite Hc, He;
              repeat constructor ..|].
           ++ destruct (Hlog e He) as (b & Hb & Heb). exists b. split; [by right|done].
        -- intros e He. destruct (Hraise e He) as (b & Hb & ?). exists b.
           split; [by right|done].
        -- intros x Hx. constructor; [unfold corrupt; by rewrite Hc|by eapply Hret].
Qed.

(** *** The resolver as a whole *)

Local Abbreviation resolver :=
  (resolver requests_get json_loads float_of_str).

Lemma resolver_unfold id_mapping fs :
  resolver id_mapping fs =
    let cache_files :=
      omap (strip_prefix cache_basepath) (map_to_list (pickles fs)).*1 in
    let r := for_each (keys id_mapping) (resolve_one cache_files) empty
               (with_cache_folders fs) in
    Result (value r) (final r) (starting :: log r).
Proof. reflexivity. Qed.

(** With no undeserializable record among the accessions, the resolver
    returns every accession that resolves, in the order of the grouping. *)
Lemma resolver_returns id_mapping fs :
  NoDup (keys id_mapping) -> intact fs (keys id_mapping) ->
  let r := resolver id_mapping fs in
  value r = Returned (resolved_of fs (keys id_mapping)) /\
  folders (final r) = folders (with_cache_folders fs) /\
  files (final r) = files fs /\
  (forall p, pickles (final r) !! p = pickles_after fs (keys id_mapping) p) /\
  log r = starting :: (keys id_mapping ≫= events_of fs).
Proof.
  intros Hnd Hi r. subst r. rewrite resolver_unfold. cbn zeta.
  edestruct (for_each_resolve
               (omap (strip_prefix cache_basepath) (map_to_list (pickles fs)).*1)
               (keys id_mapping) empty (with_cache_folders fs))
    as (Hv & Hfo & Hfi & Hpk & Hlog);
    [done|apply listed_get_files|exact Hi|by intros a _ ?%elem_of_nil|].
  cbn [value final log]. rewrite Hv, Hfo, Hfi, Hlog. split_and!; try done.
Qed.

(** In any case the resolver leaves the plain files and the records that
    were there, lets one observe only what the accessions cause, and
    raises exactly when it meets an undeserializable record. *)
Lemma resolver_any id_mapping fs :
  NoDup (keys id_mapping) ->
  let r := resolver id_mapping fs in
  folders (final r) = folders (with_cache_folders fs) /\
  files (final r) = files fs /\
  (forall p x, pickles fs !! p = Some x -> pickles (final r) !! p = Some x) /\
  (forall e, e ∈ log r ->
     e = starting \/ exists a, a ∈ keys id_mapping /\ e ∈ events_of fs a) /\
  (forall e, value r = Raised e ->
     exists b, b ∈ keys id_mapping /\ corrupt fs b = true /\
               e = CacheCorrupt (cache_basepath +:+ b)) /\
  (forall x, value r = Returned x -> intact fs (keys id_mapping)).
Proof.
  intros Hnd r. subst r. rewrite resolver_unfold. cbn zeta.
  edestruct (for_each_resolve_any
               (omap (strip_prefix cache_basepath) (map_to_list (pickles fs)).*1)
               (keys id_mapping) empty (with_cache_folders fs))
    as (Hfo & Hfi & Hpk & Hlog & Hraise & Hret);
    [done|apply listed_get_files|by intros a _ ?%elem_of_nil|].
  cbn [value final log]. split_and!; try done.
  intros e [->|He]%elem_of_cons; [by left|right]. by apply Hlog.
Qed.

End resolver.

End Resolver.

(** ** Mapping Assembler *)

Module Assembler.
Import PyDict PyDictFacts Effects.

Implicit Types (id_mapping : PyDict.t (list string))
  (mass_mapping out : PyDict.t float) (a p : string).

(** The inner loop: every identifier of the group gets the mass. *)
Lemma get_fold_assign mass protein_ids out p :
  get (fold_left (with_mass mass) protein_ids out) p =
    if decide (p ∈ protein_ids) then Some mass else get out p.
Proof.
  revert out. induction protein_ids as [|q ids IH]; intros out; simpl.
  - done.
  - rewrite IH. unfold with_mass.
    destruct (decide (p = q)) as [->|Hne].
    + rewrite get_set_eq, (decide_True (P := q ∈ q :: ids)) by left.
      by case_decide.
    + rewrite get_set_ne by done.
      repeat case_decide; try done; set_solver.
Qed.

Lemma for_each_assign mass_mapping a mass protein_ids out fs :
  get mass_mapping a = Some mass ->
  for_each protein_ids (assign_mass mass_mapping a) out fs =
    Result (Returned (fold_left (with_mass mass) protein_ids out)) fs [].
Proof.
  intros Hm. revert out. induction protein_ids as [|p pids IH]; intros out; [done|].
  cbn [for_each]. erewrite bind_returned; [|unfold assign_mass; by rewrite Hm].
  by rewrite IH.
Qed.

Lemma assemble_one_eq id_mapping mass_mapping out a fs :
  a ∈ keys mass_mapping ->
  assemble_one id_mapping mass_mapping out a fs =
    Result (Returned (assemble_step id_mapping mass_mapping out a)) fs
           (assembly_events id_mapping a).
Proof.
  intros [mass Hm]%elem_of_keys.
  unfold assemble_one, assemble_step, assembly_events, mem.
  destruct (get id_mapping a); [|done].
  rewrite Hm. by apply for_each_assign.
Qed.

(** The assembler touches no file and, over keys of [mass_mapping], never
    raises. *)
Lemma for_each_assemble id_mapping mass_mapping ids out fs :
  (forall a, a ∈ ids -> a ∈ keys mass_mapping) ->
  for_each ids (assemble_one id_mapping mass_mapping) out fs =
    Result (Returned (fold_left (assemble_step id_mapping mass_mapping) ids out))
           fs (ids ≫= assembly_events id_mapping).
Proof.
  revert out. induction ids as [|a ids IH]; intros out Hsub; [done|].
  cbn [for_each].
  erewrite bind_returned by (apply assemble_one_eq, Hsub; left).
  rewrite IH by (intros b Hb; apply Hsub; by right). done.
Qed.

Lemma assembler_eq id_mapping mass_mapping fs :
  assembler id_mapping mass_mapping fs =
    Result (Returned (assembled id_mapping mass_mapping)) fs
           (keys mass_mapping ≫= assembly_events id_mapping).
Proof. by apply for_each_assemble. Qed.

(** The [except] branch is taken only for an accession outside the
    grouping. *)
Lemma assembly_events_nil id_mapping ids :
  (forall a, a ∈ ids -> a ∈ keys id_mapping) ->
  ids ≫= assembly_events id_mapping = [].
Proof.
  induction ids as [|a ids IH]; intros Hsub; csimpl; [done|].
  rewrite IH by (intros b Hb; apply Hsub; by right).
  unfold assembly_events.
  assert (mem a id_mapping = true) as -> by (apply mem_true, Hsub; left).
  done.
Qed.

(** The value the assembly gives an identifier [p], when all the groups
    that contain [p] resolve to the same mass. *)
Lemma get_fold_assemble id_mapping mass_mapping ids out p mass :
  (forall b protein_ids mass',
     b ∈ ids -> get id_mapping b = Some protein_ids ->
     get mass_mapping b = Some mass' -> p ∈ protein_ids -> mass' = mass) ->
  (get out p = Some mass \/
   exists b protein_ids,
     b ∈ ids /\ get id_mapping b = Some protein_ids /\
     is_Some (get mass_mapping b) /\ p ∈ protein_ids) ->
  get (fold_left (assemble_step id_mapping mass_mapping) ids out) p = Some mass.
Proof.
  revert out. induction ids as [|a ids IH]; intros out Hsame Hcase; simpl.
  - destruct Hcase as [?|(b & ? & ?%elem_of_nil & _)]; done.
  - apply IH.
    { intros b pids m' Hb. apply Hsame. by right. }
    unfold assemble_step.
    destruct (get id_mapping a) as [pids|] eqn:Hid;
      [destruct (get mass_mapping a) as [m|] eqn:Hm|].
    + rewrite get_fold_assign. case_decide as Hp.
      * left. f_equal. eapply (Hsame a); eauto. left.
      * destruct Hcase as [?|(b & pids' & [->|Hb]%elem_of_cons & Hidb & Hmb & Hpb)];
          [by left| |right; eauto 10].
        congruence.
    + destruct Hcase as [?|(b & pids' & [->|Hb]%elem_of_cons & Hidb & [? Hmb] & Hpb)];
        [by left| |right; eauto 10].
      congruence.
    + destruct Hcase as [?|(b & pids' & [->|Hb]%elem_of_cons & Hidb & Hmb & Hpb)];
        [by left| |right; eauto 10].
      congruence.
Qed.

(** The keys of the assembly: the identifiers of the groups of the
    resolved accessions. *)
Lemma elem_of_keys_fold_assemble id_mapping mass_mapping ids out p :
  p ∈ keys (fold_left (assemble_step id_mapping mass_mapping) ids out) <->
  p ∈ keys out \/
  exists b protein_ids,
    b ∈ ids /\ get id_mapping b = Some protein_ids /\
    is_Some (get mass_mapping b) /\ p ∈ protein_ids.
Proof.
  revert out. induction ids as [|a ids IH]; intros out; simpl.
  - split; [by left|]. intros [?|(b & ? & ?%elem_of_nil & _)]; done.
  - rewrite IH. clear IH. unfold assemble_step.
    assert (Hstep : forall pids m,
              p ∈ keys (fold_left (with_mass m) pids out) <->
              p ∈ keys out \/ p ∈ pids).
    { intros pids m. rewrite !elem_of_keys, get_fold_assign.
      case_decide; split; eauto; intros [?|?]; eauto; done. }
    destruct (get id_mapping a) as [pids|] eqn:Hid;
      [destruct (get mass_mapping a) as [m|] eqn:Hm|].
    + rewrite Hstep. split.
      * intros [[?|?]|(b & pids' & Hb & ?)]; [by left| |].
        -- right. exists a, pids. split_and!; eauto. left.
        -- right. exists b, pids'. split; [by right|done].
      * intros [?|(b & pids' & [->|Hb]%elem_of_cons & Hidb & Hmb & Hpb)].
        -- by left; left.
        -- left; right. congruence.
        -- right. eauto 10.
    + split.
      * intros [?|(b & pids' & Hb & ?)]; [by left|].
        right. exists b, pids'. split; [by right|done].
      * intros [?|(b & pids' & [->|Hb]%elem_of_cons & Hidb & [? Hmb] & Hpb)];
          [by left|congruence|right; eauto 10].
    + split.
      * intros [?|(b & pids' & Hb & ?)]; [by left|].
        right. exists b, pids'. split; [by right|done].
      * intros [?|(b & pids' & [->|Hb]%elem_of_cons & Hidb & Hmb & Hpb)];
          [by left|congruence|right; eauto 10].
Qed.

Lemma elem_of_keys_assembled id_mapping mass_mapping p :
  p ∈ keys (assembled id_mapping mass_mapping) <->
  exists a protein_ids,
    get id_mapping a = Some protein_ids /\
    is_Some (get mass_mapping a) /\ p ∈ protein_ids.
Proof.
  unfold assembled. rewrite elem_of_keys_fold_assemble. split.
  - intros [?%elem_of_nil|(b & pids & ? & ? & ? & ?)]; [done|eauto 10].
  - intros (a & pids & Hid & Hm & Hp). right. exists a, pids.
    split_and!; try done. by apply elem_of_keys.
Qed.

End Assembler.

(** ** The whole function *)

Module Workflow.
Import PyDict PyDictFacts Effects.

Lemma query_url_inj a b : uniprot_query_url a = uniprot_query_url b -> a = b.
Proof. apply (inj (String.app _)). Qed.

Lemma requests_for_app a l1 l2 :
  requests_for a (l1 ++ l2) = requests_for a l1 + requests_for a l2.
Proof. unfold requests_for. by rewrite filter_app, length_app. Qed.

(** Resolving an accession requests it once when the cache has no record
    for it, and requests no other accession. *)
Lemma requests_for_events_of fs a b :
  requests_for a (events_of fs b) =
    if decide (a = b) then match cached fs a with None => 1 | Some _ => 0 end
    else 0.
Proof.
  unfold events_of, requests_for.
  destruct (decide (a = b)) as [->|Hne].
  - destruct (cached fs b) as [[m|]|]; try done.
    rewrite filter_cons_False by done.
    rewrite filter_cons_True by (by apply bool_decide_eq_true_2).
    by rewrite filter_cons_False.
  - destruct (cached fs b) as [[m|]|]; try done.
    rewrite filter_cons_False by done.
    rewrite filter_cons_False; [done|].
    cbn [is_get_for]. rewrite bool_decide_eq_false_2; [done|].
    by intros ?%query_url_inj.
Qed.

Lemma requests_for_events fs ids a :
  NoDup ids ->
  requests_for a (ids ≫= events_of fs) =
    if decide (a ∈ ids) then match cached fs a with None => 1 | Some _ => 0 end
    else 0.
Proof.
  induction ids as [|b ids IH]; intros Hnd; csimpl; [done|].
  apply NoDup_cons in Hnd as [Hnin Hnd].
  rewrite requests_for_app, requests_for_events_of, IH by done.
  destruct (decide (a = b)) as [->|Hne].
  - rewrite (decide_True (P := b ∈ b :: ids)) by left.
    rewrite (decide_False (P := b ∈ ids)) by done. lia.
  - repeat case_decide; try done; set_solver.
Qed.

Lemma requests_for_none a l :
  (forall e, e ∈ l -> is_get_for a e = false) -> requests_for a l = 0.
Proof.
  unfold requests_for. induction l as [|e l IH]; intros Hl; [done|].
  rewrite filter_cons_False by (rewrite (Hl e) by left; done).
  apply IH. intros e' He'. apply Hl. by right.
Qed.

(** Resolving an accession never requests one that has a record. *)
Lemma events_of_no_request fs a c e :
  is_Some (cached fs c) -> e ∈ events_of fs a -> is_get_for c e = false.
Proof.
  intros [x Hx]. unfold events_of.
  destruct (cached fs a) as [[m|]|] eqn:Hc.
  - by intros ->%list_elem_of_singleton.
  - by intros ?%elem_of_nil.
  - rewrite !elem_of_cons. intros [->|[->|[->|?%elem_of_nil]]]; try done.
    cbn [is_get_for]. apply bool_decide_eq_false_2.
    intros ->%query_url_inj. congruence.
Qed.

(** The message of the [except] branch is none of the other messages. *)
Lemma no_mass_found_starting a : no_mass_found a ≠ starting.
Proof. intros H. vm_compute in H. discriminate H. Qed.

Lemma no_mass_found_done a : no_mass_found a ≠ done_message.
Proof. intros H. vm_compute in H. discriminate H. Qed.

Lemma no_mass_found_events_of fs a b : no_mass_found a ∉ events_of fs b.
Proof.
  unfold events_of. destruct (cached fs b) as [[m|]|].
  - intros H%list_elem_of_singleton. discriminate H.
  - by intros ?%elem_of_nil.
  - rewrite !elem_of_cons.
    intros [H|[H|[H|H%elem_of_nil]]]; [|discriminate H|discriminate H|done].
    unfold no_mass_found in H. injection H as H. discriminate H.
Qed.

Section workflow.

Variable requests_get : string -> PyDict.t string -> option Response.
Variable json_loads : string -> option json.
Variable float_of_str : string -> option float.

Local Abbreviation run :=
  (get_protein_mass_mapping requests_get json_loads float_of_str).
Local Abbreviation resolver :=
  (resolver requests_get json_loads float_of_str).
Local Abbreviation resolved_of :=
  (resolved_of requests_get json_loads float_of_str).
Local Abbreviation pickles_after :=
  (pickles_after requests_get json_loads float_of_str).

Lemma run_unfold model project_folder project_name fs :
  run model project_folder project_name fs =
    let id_mapping := uniprot_id_protein_id_mapping model in
    let r := resolver id_mapping fs in
    match value r with
    | Raised e => Result (Raised e) (final r) (log r)
    | Returned mass_mapping =>
        Result (Returned tt)
               (with_file (final r) (output_path project_folder project_name)
                  (JsonMapping (assembled id_mapping mass_mapping)))
               (log r ++ (keys mass_mapping ≫= assembly_events id_mapping)
                      ++ [done_message])
    end.
Proof.
  unfold get_protein_mass_mapping. cbn zeta. unfold bind at 1.
  destruct (value (resolver _ fs)) as [mass_mapping|e]; [|done].
  erewrite bind_returned by apply Assembler.assembler_eq.
  cbn. by rewrite ?app_nil_r.
Qed.

(** The accessions the resolver returns are keys of the grouping. *)
Lemma resolver_value model fs mass_mapping :
  value (resolver (uniprot_id_protein_id_mapping model) fs) = Returned mass_mapping ->
  mass_mapping = resolved_of fs (keys (uniprot_id_protein_id_mapping model)).
Proof.
  intros Hv.
  pose proof (Grouping.NoDup_keys_grouping model) as Hnd.
  destruct (Resolver.resolver_any requests_get json_loads float_of_str _ fs Hnd)
    as (_ & _ & _ & _ & _ & Hret).
  specialize (Hret _ Hv).
  destruct (Resolver.resolver_returns requests_get json_loads float_of_str
              _ fs Hnd Hret) as (Hv' & _).
  congruence.
Qed.

(** A run over a cache without undeserializable records. *)
Lemma run_returns model project_folder project_name fs :
  let id_mapping := uniprot_id_protein_id_mapping model in
  intact fs (keys id_mapping) ->
  let r := run model project_folder project_name fs in
  value r = Returned tt /\
  value (resolver id_mapping fs) = Returned (resolved_of fs (keys id_mapping)) /\
  folders (final r) = folders (with_cache_folders fs) /\
  files (final r) =
    <[output_path project_folder project_name :=
        JsonMapping (assembled id_mapping (resolved_of fs (keys id_mapping)))]>
      (files fs) /\
  (forall p, pickles (final r) !! p = pickles_after fs (keys id_mapping) p) /\
  log r = starting :: (keys id_mapping ≫= events_of fs) ++ [done_message].
Proof.
  intros idm Hi r. subst r. rewrite run_unfold. cbn zeta. fold idm.
  pose proof (Grouping.NoDup_keys_grouping model) as Hnd.
  destruct (Resolver.resolver_returns requests_get json_loads float_of_str
              idm fs Hnd Hi) as (Hv & Hfo & Hfi & Hpk & Hlog).
  rewrite Hv. cbn [value final log with_file folders files pickles].
  rewrite Hfo, Hfi, Hlog. split_and!; try done.
  rewrite Assembler.assembly_events_nil; [done|].
  intros a Ha. by apply Resolver.keys_resolved_of in Ha as [? _].
Qed.

(** A run returns exactly when no grouped accession has an
    undeserializable record. *)
Lemma run_returned_intact model project_folder project_name fs :
  value (run model project_folder project_name fs) = Returned tt <->
  intact fs (keys (uniprot_id_protein_id_mapping model)).
Proof.
  split; [|by intros Hi; apply run_returns].
  rewrite run_unfold. cbn zeta.
  pose proof (Grouping.NoDup_keys_grouping model) as Hnd.
  destruct (Resolver.resolver_any requests_get json_loads float_of_str _ fs Hnd)
    as (_ & _ & _ & _ & _ & Hret).
  destruct (value (resolver _ fs)) as [mm|e]; [|done].
  intros _. by eapply Hret.
Qed.

(** A run that meets an undeserializable record. *)
Lemma run_raises model project_folder project_name fs e :
  let r := run model project_folder project_name fs in
  value r = Raised e ->
  (exists b, b ∈ keys (uniprot_id_protein_id_mapping model) /\
             corrupt fs b = true /\
             e = CacheCorrupt (cache_basepath +:+ b)) /\
  files (final r) = files fs /\
  (forall p x, pickles fs !! p = Some x -> pickles (final r) !! p = Some x).
Proof.
  intros r. subst r. rewrite run_unfold. cbn zeta.
  pose proof (Grouping.NoDup_keys_grouping model) as Hnd.
  destruct (Resolver.resolver_any requests_get json_loads float_of_str _ fs Hnd)
    as (_ & Hfi & Hpk & _ & Hraise & _).
  destruct (value (resolver _ fs)) as [mm|e'] eqn:Hv; [done|].
  intros [= ->]. cbn [final]. split_and!; try done. by apply Hraise.
Qed.

(** Everything a run lets one observe. *)
Lemma run_log model project_folder project_name fs e :
  e ∈ log (run model project_folder project_name fs) ->
  e = starting \/ e = done_message \/
  exists a, a ∈ keys (uniprot_id_protein_id_mapping model) /\ e ∈ events_of fs a.
Proof.
  rewrite run_unfold. cbn zeta.
  pose proof (Grouping.NoDup_keys_grouping model) as Hnd.
  destruct (Resolver.resolver_any requests_get json_loads float_of_str _ fs Hnd)
    as (_ & _ & _ & Hlog & _ & _).
  destruct (value (resolver _ fs)) as [mm|e'] eqn:Hv; cbn [log].
  - apply resolver_value in Hv as ->.
    rewrite Assembler.assembly_events_nil.
    2:{ intros a Ha. by apply Resolver.keys_resolved_of in Ha as [? _]. }
    intros [He|He%list_elem_of_singleton]%elem_of_app; [|by right; left].
    destruct (Hlog e He) as [?|?]; [by left|by right; right].
  - intros He. destruct (Hlog e He) as [?|?]; [by left|by right; right].
Qed.

(** What a run that returned has written. *)
Lemma run_output model project_folder project_name fs out :
  let id_mapping := uniprot_id_protein_id_mapping model in
  let r := run model project_folder project_name fs in
  value r = Returned tt ->
  files (final r) !! output_path project_folder project_name
    = Some (JsonMapping out) ->
  intact fs (keys id_mapping) /\
  out = assembled id_mapping (resolved_of fs (keys id_mapping)).
Proof.
  intros idm r Hv Hout. apply run_returned_intact in Hv as Hi.
  split; [done|].
  destruct (run_returns model project_folder project_name fs Hi)
    as (_ & _ & _ & Hfi & _).
  fold r in Hfi. rewrite Hfi, lookup_insert_eq in Hout.
  subst idm. by injection Hout as <-.
Qed.

Lemma resolution_cases fs a mass :
  resolution requests_get json_loads float_of_str fs a = Some mass <->
  cached fs a = Some (Pickled mass) \/
  (cached fs a = None /\
   lookup_mass requests_get json_loads float_of_str a = Some mass).
Proof.
  unfold resolution. destruct (cached fs a) as [[m|]|]; naive_solver.
Qed.

(** The lookup records no mass exactly in the listed cases. *)
Lemma lookup_failure_None a :
  lookup_failure requests_get json_loads float_of_str a <->
  lookup_mass requests_get json_loads float_of_str a = None.
Proof.
  unfold lookup_mass, mass_of_response. split.
  - intros [Hr|r Hr Hok|r Hr Hok Hj|r parsed Hr Hok Hj Hs
            |r parsed sequence mass Hr Hok Hj Hs Hm Hf]; rewrite Hr; simpl;
      rewrite ?Hok; simpl; try done; rewrite Hj; simpl; try done.
    + destruct (subscript parsed "sequence"); simpl in *; [|done].
      by rewrite Hs.
    + rewrite Hs. simpl. rewrite Hm. simpl. done.
  - destruct (requests_get (uniprot_query_url a) accept_json) as [r|] eqn:Hr;
      [|intros _; by apply NetworkError].
    simpl. destruct (ok r) eqn:Hok; simpl; [|intros _; by eapply BadStatus].
    destruct (json_loads (text r)) as [parsed|] eqn:Hj; simpl;
      [|intros _; by eapply MalformedResponse].
    destruct (subscript parsed "sequence") as [sequence|] eqn:Hs; simpl;
      [|intros _; eapply MissingMass; eauto; by rewrite Hs].
    destruct (subscript sequence "mass") as [mass|] eqn:Hm; simpl;
      [|intros _; eapply MissingMass; eauto; by rewrite Hs].
    intros Hf. by eapply UnparseableMass.
Qed.

End workflow.

End Workflow.

(** ** The properties of the specification *)

Section claims.

Variable requests_get : string -> PyDict.t string -> option Response.
Variable json_loads : string -> option json.
Variable float_of_str : string -> option float.

Local Abbreviation run :=
  (get_protein_mass_mapping requests_get json_loads float_of_str).
Local Abbreviation resolver :=
  (resolver requests_get json_loads float_of_str).
Local Abbreviation resolve_one :=
  (resolve_one requests_get json_loads float_of_str).
Local Abbreviation lookup_mass :=
  (lookup_mass requests_get json_loads float_of_str).
Local Abbreviation lookup_failure :=
  (lookup_failure requests_get json_loads float_of_str).
Local Abbreviation resolved_of :=
  (resolved_of requests_get json_loads float_of_str).

(** C1. In every run that writes its output, each key of the written
    OutputMapping is the identifier of a gene that carries a "uniprot"
    annotation whose accession is a key of ResolvedMass, with a mass read
    from the cache or fetched from the remote service. In particular, in a
    model (genes have distinct identifiers) a gene without the annotation
    is not a key of OutputMapping. *)
Theorem output_keys_are_resolved_genes model project_folder project_name fs out :
  let r := run model project_folder project_name fs in
  value r = Returned tt ->
  files (final r) !! output_path project_folder project_name
    = Some (JsonMapping out) ->
  exists mass_mapping,
    value (resolver (uniprot_id_protein_id_mapping model) fs)
      = Returned mass_mapping /\
    (forall p, p ∈ PyDict.keys out ->
       exists gene a mass,
         gene ∈ cobra.genes model /\ cobra.id gene = p /\
         cobra.annotation gene !! "uniprot" = Some a /\
         PyDict.get mass_mapping a = Some mass /\
         (cached fs a = Some (Pickled mass) \/
          (cached fs a = None /\ lookup_mass a = Some mass))) /\
    (cobra.well_formed model ->
     forall gene, gene ∈ cobra.genes model ->
       cobra.annotation gene !! "uniprot" = None ->
       cobra.id gene ∉ PyDict.keys out).
Proof.
  intros r Hv Hout.
  destruct (Workflow.run_output _ _ _ _ _ _ _ _ Hv Hout) as [Hi ->].
  destruct (Workflow.run_returns requests_get json_loads float_of_str
              model project_folder project_name fs Hi) as (_ & Hres & _).
  eexists. split; [exact Hres|].
  assert (Hkey : forall p,
    p ∈ PyDict.keys (assembled (uniprot_id_protein_id_mapping model)
                       (resolved_of fs (PyDict.keys (uniprot_id_protein_id_mapping model)))) ->
    exists gene a mass,
      gene ∈ cobra.genes model /\ cobra.id gene = p /\
      cobra.annotation gene !! "uniprot" = Some a /\
      PyDict.get (resolved_of fs (PyDict.keys (uniprot_id_protein_id_mapping model))) a
        = Some mass /\
      (cached fs a = Some (Pickled mass) \/
       (cached fs a = None /\ lookup_mass a = Some mass))).
  { intros p (a & pids & Hid & [mass Hm] & Hp)%Assembler.elem_of_keys_assembled.
    apply Grouping.get_grouping_Some in Hid as ->.
    apply Grouping.elem_of_members in Hp as (gene & Hg & Hgid & Ha).
    exists gene, a, mass. split_and!; try done.
    rewrite Resolver.get_resolved_of in Hm. case_decide; [|done].
    by apply Workflow.resolution_cases. }
  split; [exact Hkey|].
  intros Hwf gene Hg Hnone Hin.
  destruct (Hkey _ Hin) as (gene' & a & mass & Hg' & Hid' & Ha' & _).
  assert (gene' = gene) as -> by (by eapply Grouping.well_formed_inj).
  congruence.
Qed.

(** C2. For the records g1 (uniprot P1), g2 (uniprot P2) and g3 (no
    annotation), an empty cache, a remote service that gives mass 10.5 for
    P1 and fails for P2: the run returns and the written OutputMapping is
    exactly g1 -> 10.5, so g2 and g3 are absent. *)
Theorem end_to_end_example project_folder project_name fs :
  let model :=
    {| cobra.genes := [Fixture.gene "g1" (Some "P1");
                        Fixture.gene "g2" (Some "P2");
                        Fixture.gene "g3" None] |} in
  pickles fs = ∅ ->
  lookup_mass "P1" = Some 10.5%float ->
  lookup_mass "P2" = None ->
  let r := run model project_folder project_name fs in
  value r = Returned tt /\
  files (final r) !! output_path project_folder project_name
    = Some (JsonMapping [("g1", 10.5%float)]).
Proof.
  intros model Hempty H1 H2 r.
  assert (Hidm : uniprot_id_protein_id_mapping model
                 = [("P1", ["g1"]); ("P2", ["g2"])]) by (by vm_compute).
  assert (Hc : forall a, cached fs a = None).
  { intros a. unfold cached. by rewrite Hempty, lookup_empty. }
  assert (Hi : intact fs (PyDict.keys (uniprot_id_protein_id_mapping model))).
  { apply Forall_forall. intros a _. unfold corrupt. by rewrite Hc. }
  destruct (Workflow.run_returns requests_get json_loads float_of_str
              model project_folder project_name fs Hi)
    as (Hv & _ & _ & Hfi & _).
  fold r in Hv, Hfi. split; [done|].
  rewrite Hfi, lookup_insert_eq, Hidm. do 2 f_equal.
  unfold resolved_of, resolution. csimpl.
  rewrite !Hc, H1, H2. by vm_compute.
Qed.

(** C3. Let A and B be accessions without a cache record, A grouped, the
    remote lookup failing for A (request error, error status, malformed
    body, missing or unparseable mass) and giving a mass for B. In a model
    and over a cache whose records can be read, the run returns, A was
    requested once and no more, and the written OutputMapping gives the
    mass of B to every identifier grouped under B and has no entry for
    the identifiers grouped under A. *)
Theorem partial_failure_contained model project_folder project_name fs A B mass :
  let id_mapping := uniprot_id_protein_id_mapping model in
  cobra.well_formed model ->
  intact fs (PyDict.keys id_mapping) ->
  A ∈ PyDict.keys id_mapping ->
  cached fs A = None -> cached fs B = None ->
  lookup_failure A -> lookup_mass B = Some mass ->
  let r := run model project_folder project_name fs in
  (forall cache_files mass_mapping fs',
     A ∉ cache_files -> PyDict.get mass_mapping A = None ->
     resolve_one cache_files mass_mapping A fs' =
       Result (Returned mass_mapping) fs'
              [Print [PStr ("UniProt search for: " +:+ A)];
               Get (uniprot_query_url A) accept_json;
               Sleep 0.4]) /\
  value r = Returned tt /\
  requests_for A (log r) = 1 /\
  exists out,
    files (final r) !! output_path project_folder project_name
      = Some (JsonMapping out) /\
    (forall p, p ∈ members (cobra.genes model) B -> PyDict.get out p = Some mass) /\
    (forall p, p ∈ members (cobra.genes model) A -> p ∉ PyDict.keys out).
Proof.
  intros idm Hwf Hi HA HcA HcB HfA HlB r.
  apply Workflow.lookup_failure_None in HfA.
  split; [by intros cf mm fs' Hcf Hmm; apply Resolver.resolve_one_failed|].
  destruct (Workflow.run_returns requests_get json_loads float_of_str
              model project_folder project_name fs Hi)
    as (Hv & _ & _ & Hfi & _ & Hlog).
  fold r idm in Hv, Hfi, Hlog.
  assert (HrA : resolution requests_get json_loads float_of_str fs A = None).
  { unfold resolution. by rewrite HcA. }
  assert (HrB : resolution requests_get json_loads float_of_str fs B = Some mass).
  { unfold resolution. by rewrite HcB. }
  split_and!; [done| |].
  - rewrite Hlog.
    change (starting :: (PyDict.keys idm ≫= events_of fs) ++ [done_message])
      with ([starting] ++ (PyDict.keys idm ≫= events_of fs) ++ [done_message]).
    rewrite !Workflow.requests_for_app.
    rewrite Workflow.requests_for_events by apply Grouping.NoDup_keys_grouping.
    rewrite decide_True by done. rewrite HcA. done.
  - eexists. split; [by rewrite Hfi, lookup_insert_eq|]. split.
    + intros p Hp.
      assert (Hget : PyDict.get idm B = Some (members (cobra.genes model) B)).
      { unfold idm. rewrite Grouping.get_grouping.
        destruct (members (cobra.genes model) B); [by apply elem_of_nil in Hp|done]. }
      assert (HB : B ∈ PyDict.keys idm).
      { apply PyDictFacts.elem_of_keys. eauto. }
      apply Assembler.get_fold_assemble.
      * intros b pids mass' _ Hb Hm Hpb.
        apply Grouping.get_grouping_Some in Hb as ->.
        assert (b = B) as -> by (by eapply Grouping.members_disjoint).
        rewrite Resolver.get_resolved_of, decide_True in Hm by done. congruence.
      * right. exists B, (members (cobra.genes model) B). split_and!; try done.
        -- apply Resolver.keys_resolved_of. split; [done|by rewrite HrB].
        -- rewrite Resolver.get_resolved_of, decide_True by done. by rewrite HrB.
    + intros p Hp (a & pids & Hid & [m Hm] & Hpa)%Assembler.elem_of_keys_assembled.
      apply Grouping.get_grouping_Some in Hid as ->.
      assert (a = A) as -> by (by eapply Grouping.members_disjoint).
      rewrite Resolver.get_resolved_of, decide_True in Hm by done. congruence.
Qed.

(** C4. For every grouping (its accessions distinct), if the cache has a
    record for each of its accessions when the run starts, the resolver
    makes no request and never sleeps. *)
Theorem full_cache_no_request_no_delay
    (id_mapping : PyDict.t (list string)) fs :
  NoDup (PyDict.keys id_mapping) ->
  (forall a, a ∈ PyDict.keys id_mapping -> is_Some (cached fs a)) ->
  forall e, e ∈ log (resolver id_mapping fs) ->
            is_get e = false /\ is_sleep e = false.
Proof.
  intros Hnd Hall e He.
  destruct (Resolver.resolver_any requests_get json_loads float_of_str
              id_mapping fs Hnd) as (_ & _ & _ & Hlog & _).
  destruct (Hlog e He) as [->|(a & Ha & Hea)]; [done|].
  destruct (Hall a Ha) as [x Hx]. unfold events_of in Hea. rewrite Hx in Hea.
  destruct x as [m|].
  - by apply list_elem_of_singleton in Hea as ->.
  - by apply elem_of_nil in Hea.
Qed.

(** C5. In a model (genes have distinct identifiers), when a run has
    written its output and an accession of the grouping is in ResolvedMass
    with mass m, every identifier grouped under that accession is mapped
    to m in the written OutputMapping. *)
Theorem fan_out model project_folder project_name fs out
    mass_mapping a protein_ids mass :
  let id_mapping := uniprot_id_protein_id_mapping model in
  let r := run model project_folder project_name fs in
  cobra.well_formed model ->
  value r = Returned tt ->
  files (final r) !! output_path project_folder project_name
    = Some (JsonMapping out) ->
  value (resolver id_mapping fs) = Returned mass_mapping ->
  PyDict.get id_mapping a = Some protein_ids ->
  PyDict.get mass_mapping a = Some mass ->
  forall p, p ∈ protein_ids -> PyDict.get out p = Some mass.
Proof.
  intros idm r Hwf Hv Hout Hres Hid Hm p Hp.
  destruct (Workflow.run_output _ _ _ _ _ _ _ _ Hv Hout) as [Hi ->].
  apply Workflow.resolver_value in Hres as ->.
  apply Assembler.get_fold_assemble.
  - intros b pids mass' _ Hb Hmb Hpb.
    apply Grouping.get_grouping_Some in Hb as ->.
    apply Grouping.get_grouping_Some in Hid as ->.
    assert (b = a) as -> by (by eapply Grouping.members_disjoint).
    unfold idm in *. congruence.
  - right. exists a, protein_ids. split_and!; try done.
    apply PyDictFacts.elem_of_keys. eauto.
Qed.

(** C6. Starting from an empty cache, a first run returns; a second run
    of the same model on the file system the first run left returns too,
    resolves the same ResolvedMass, writes the same OutputMapping and
    leaves the cache records as the first run left them: every accession
    keeps the mass that was persisted for it. *)
Theorem rerun_idempotent model project_folder project_name
    (present : gset string) (others : gmap string plain_file) :
  let id_mapping := uniprot_id_protein_id_mapping model in
  let fs0 := {| folders := present; pickles := ∅; files := others |} in
  let r1 := run model project_folder project_name fs0 in
  let r2 := run model project_folder project_name (final r1) in
  value r1 = Returned tt /\
  value r2 = Returned tt /\
  value (resolver id_mapping (final r1)) = value (resolver id_mapping fs0) /\
  (exists out,
     files (final r1) !! output_path project_folder project_name
       = Some (JsonMapping out) /\
     files (final r2) !! output_path project_folder project_name
       = Some (JsonMapping out)) /\
  files (final r2) = files (final r1) /\
  pickles (final r2) = pickles (final r1).
Proof.
  intros idm fs0 r1 r2.
  assert (Hc0 : forall a, cached fs0 a = None).
  { intros a. unfold cached. simpl. apply lookup_empty. }
  assert (Hi0 : intact fs0 (PyDict.keys idm)).
  { apply Forall_forall. intros a _. unfold corrupt. by rewrite Hc0. }
  destruct (Workflow.run_returns requests_get json_loads float_of_str
              model project_folder project_name fs0 Hi0)
    as (Hv1 & Hres1 & _ & Hfi1 & Hpk1 & _).
  fold r1 idm in Hv1, Hres1, Hfi1, Hpk1.
  assert (Hc1 : forall a,
            cached (final r1) a =
              if decide (a ∈ PyDict.keys idm) then Pickled <$> lookup_mass a
              else None).
  { intros a. unfold cached. rewrite Hpk1. unfold pickles_after.
    unfold fs0. cbn [pickles].
    rewrite lookup_empty, Effects.strip_prefix_app. done. }
  assert (Hi1 : intact (final r1) (PyDict.keys idm)).
  { apply Forall_forall. intros a Ha. unfold corrupt.
    rewrite Hc1, decide_True by done. by destruct (lookup_mass a). }
  assert (Hsame : resolved_of (final r1) (PyDict.keys idm)
                  = resolved_of fs0 (PyDict.keys idm)).
  { apply Resolver.resolved_of_ext_resolution. intros a Ha.
    unfold resolution. rewrite Hc0, Hc1, decide_True by done.
    by destruct (lookup_mass a) eqn:Hl. }
  destruct (Workflow.run_returns requests_get json_loads float_of_str
              model project_folder project_name (final r1) Hi1)
    as (Hv2 & Hres2 & _ & Hfi2 & Hpk2 & _).
  fold r2 idm in Hv2, Hres2, Hfi2, Hpk2.
  split_and!; [done|done| | | |].
  - by rewrite Hres1, Hres2, Hsame.
  - eexists. split; [by rewrite Hfi1, lookup_insert_eq|].
    by rewrite Hfi2, lookup_insert_eq, Hsame.
  - by rewrite Hfi2, Hsame, Hfi1, insert_insert_eq.
  - apply map_eq. intros p. rewrite Hpk2. unfold pickles_after.
    destruct (pickles (final r1) !! p) eqn:Hp; [done|].
    destruct (strip_prefix cache_basepath p) as [a|] eqn:Ha; [|done].
    apply Effects.strip_prefix_Some in Ha as ->. simpl.
    case_decide as Hin; [|done].
    change (cached (final r1) a = None) in Hp.
    rewrite Hc1, decide_True in Hp by done.
    by destruct (lookup_mass a).
Qed.

(** C7. When the cache holds an undeserializable record for a grouped
    accession, the run ends with the [CacheCorrupt] raised by reading
    such a record: nothing catches it. No output is written, and every
    undeserializable record is still there and was never requested from
    the remote service: it is not handled as a cache miss. *)
Theorem corrupt_cache_is_fatal model project_folder project_name fs a :
  let id_mapping := uniprot_id_protein_id_mapping model in
  a ∈ PyDict.keys id_mapping ->
  corrupt fs a = true ->
  let r := run model project_folder project_name fs in
  (exists b,
     b ∈ PyDict.keys id_mapping /\ corrupt fs b = true /\
     value r = Raised (CacheCorrupt (cache_basepath +:+ b))) /\
  files (final r) = files fs /\
  (forall c, corrupt fs c = true ->
     corrupt (final r) c = true /\ requests_for c (log r) = 0).
Proof.
  intros idm Ha Hca r.
  destruct (value r) as [[]|e] eqn:Hv.
  { apply Workflow.run_returned_intact in Hv.
    unfold intact in Hv. rewrite Forall_forall in Hv.
    specialize (Hv a Ha). congruence. }
  destruct (Workflow.run_raises requests_get json_loads float_of_str
              model project_folder project_name fs e Hv)
    as ((b & Hb & Hcb & ->) & Hfi & Hpk).
  fold r in Hfi, Hpk. split_and!; [by eauto|done|].
  intros c Hc. unfold corrupt in Hc.
  destruct (cached fs c) as [[m|]|] eqn:Hcc; try done. split.
  - unfold corrupt, cached. by rewrite (Hpk _ _ Hcc).
  - apply Workflow.requests_for_none. intros e' He'.
    apply Workflow.run_log in He' as [->|[->|(a' & _ & He')]]; [done|done|].
    eapply Workflow.events_of_no_request; [|done]. by rewrite Hcc.
Qed.

(** C9. A run that completes has written its OutputMapping at the path
    made of the normalized project folder, which ends with a separator,
    then the project name, then "_protein_id_mass_mapping.json": after
    the run that path holds the mapping whatever it held before, and no
    other plain file has changed. *)
Theorem output_written_at_path model project_folder project_name fs :
  let id_mapping := uniprot_id_protein_id_mapping model in
  let r := run model project_folder project_name fs in
  value r = Returned tt ->
  ends_with_separator (standardize_folder project_folder) = true /\
  exists mass_mapping,
    value (resolver id_mapping fs) = Returned mass_mapping /\
    files (final r) =
      <[(standardize_folder project_folder +:+ project_name)
          +:+ "_protein_id_mass_mapping.json" :=
          JsonMapping (assembled id_mapping mass_mapping)]> (files fs).
Proof.
  intros idm r Hv. apply Workflow.run_returned_intact in Hv as Hi.
  destruct (Workflow.run_returns requests_get json_loads float_of_str
              model project_folder project_name fs Hi)
    as (_ & Hres & _ & Hfi & _).
  split; [apply Effects.standardize_folder_separator|].
  eexists. split; [exact Hres|exact Hfi].
Qed.

(** C10. Every key of ResolvedMass is a key of the grouping, so the
    assembler finds the group of every accession it visits: it prints
    nothing, and no run ever prints the message of the [except] branch. *)
Theorem except_branch_unreachable model project_folder project_name fs :
  let id_mapping := uniprot_id_protein_id_mapping model in
  (forall mass_mapping,
     value (resolver id_mapping fs) = Returned mass_mapping ->
     (forall a, a ∈ PyDict.keys mass_mapping ->
                a ∈ PyDict.keys id_mapping /\
                is_Some (PyDict.get id_mapping a)) /\
     log (assembler id_mapping mass_mapping (final (resolver id_mapping fs)))
       = []) /\
  (forall a, no_mass_found a ∉ log (run model project_folder project_name fs)).
Proof.
  intros idm. split.
  - intros mm ->%Workflow.resolver_value.
    assert (Hsub : forall a,
              a ∈ PyDict.keys (resolved_of fs (PyDict.keys idm)) ->
              a ∈ PyDict.keys idm).
    { intros a Ha. by apply Resolver.keys_resolved_of in Ha as [? _]. }
    split.
    + intros a Ha. split; [by apply Hsub|].
      by apply PyDictFacts.elem_of_keys, Hsub.
    + rewrite Assembler.assembler_eq. cbn [log].
      by apply Assembler.assembly_events_nil.
  - intros a [H|[H|(b & _ & H)]]%Workflow.run_log.
    + by apply Workflow.no_mass_found_starting in H.
    + by apply Workflow.no_mass_found_done in H.
    + by apply Workflow.no_mass_found_events_of in H.
Qed.

End claims.

(** ** The properties at concrete inputs *)

(** Each way a lookup fails, and a mass given as an [int]. *)
Example lookup_outcomes :
  Fixture.lookup Fixture.table <$> ["P1"; "P2"; "P3"; "P4"; "P5"; "P6"; "P7"; "P8"]
  = [Some 10.5%float; None; None; None; None; None; Some 55234%float; None].
Proof. by vm_compute. Qed.

Example standardize_folder_examples :
  standardize_folder <$> ["out"; "out/"; "a/b"; ""] = ["out/"; "out/"; "a/b/"; "/"].
Proof. by vm_compute. Qed.

(** C8. The assembler visits the keys of ResolvedMass, not those of the
    grouping: an accession whose resolution failed is never visited, and no
    message reports it. Here P2 is grouped, its lookup fails, the run
    returns, and the log holds the five messages and events of the run,
    none of them about P2 having no mass. *)
Theorem unresolved_accession_not_reported :
  let id_mapping :=
    uniprot_id_protein_id_mapping {| cobra.genes := Fixture.lone_genes |} in
  let r := Fixture.run Fixture.lone_table Fixture.lone_genes "out" "proj"
             Fixture.empty_fs in
  "P2" ∈ PyDict.keys id_mapping /\
  value (resolver (Fixture.service Fixture.lone_table)
                  (Fixture.json_loads Fixture.lone_table) Fixture.float_of_str
                  id_mapping Fixture.empty_fs) = Returned [] /\
  value r = Returned tt /\
  files (final r) !! "out/proj_protein_id_mass_mapping.json" = Some (JsonMapping []) /\
  log r = [starting;
           Print [PStr "UniProt search for: P2"];
           Get "https://www.ebi.ac.uk/proteins/api/proteins/P2" accept_json;
           Sleep 0.4;
           done_message] /\
  no_mass_found "P2" ∉ log r.
Proof.
  intros idm r.
  assert (Hlog : log r = [starting;
           Print [PStr "UniProt search for: P2"];
           Get "https://www.ebi.ac.uk/proteins/api/proteins/P2" accept_json;
           Sleep 0.4;
           done_message]) by (by vm_compute).
  split_and!; try (by vm_compute).
  - vm_compute. left.
  - rewrite Hlog. rewrite !elem_of_cons.
    intros [H|[H|[H|[H|[H|H%elem_of_nil]]]]]; try discriminate H; done.
Qed.

(** The end-to-end example run: g1 is the one key, g3 has no annotation. *)
Lemma output_keys_are_resolved_genes_witness :
  value (Fixture.run Fixture.table Fixture.genes "out" "proj" Fixture.empty_fs)
    = Returned tt /\
  files (final (Fixture.run Fixture.table Fixture.genes "out" "proj" Fixture.empty_fs))
    !! output_path "out" "proj" = Some (JsonMapping [("g1", 10.5%float)]) /\
  exists mass_mapping,
    value (resolver (Fixture.service Fixture.table) (Fixture.json_loads Fixture.table)
             Fixture.float_of_str
             (uniprot_id_protein_id_mapping {| cobra.genes := Fixture.genes |})
             Fixture.empty_fs) = Returned mass_mapping /\
    (forall p, p ∈ PyDict.keys [("g1", 10.5%float)] ->
       exists gene a mass,
         gene ∈ Fixture.genes /\ cobra.id gene = p /\
         cobra.annotation gene !! "uniprot" = Some a /\
         PyDict.get mass_mapping a = Some mass /\
         (cached Fixture.empty_fs a = Some (Pickled mass) \/
          (cached Fixture.empty_fs a = None /\
           Fixture.lookup Fixture.table a = Some mass))) /\
    (cobra.well_formed {| cobra.genes := Fixture.genes |} ->
     forall gene, gene ∈ Fixture.genes ->
       cobra.annotation gene !! "uniprot" = None ->
       cobra.id gene ∉ PyDict.keys [("g1", 10.5%float)]).
Proof.
  split; [by vm_compute|]. split; [by vm_compute|].
  apply (output_keys_are_resolved_genes
           (Fixture.service Fixture.table) (Fixture.json_loads Fixture.table)
           Fixture.float_of_str {| cobra.genes := Fixture.genes |}
           "out" "proj" Fixture.empty_fs [("g1", 10.5%float)]);
    by vm_compute.
Defined.

(** The fake service is such a service: 10.5 for P1, no connection for P2. *)
Lemma end_to_end_example_witness :
  pickles Fixture.empty_fs = ∅ /\
  Fixture.lookup Fixture.table "P1" = Some 10.5%float /\
  Fixture.lookup Fixture.table "P2" = None /\
  value (Fixture.run Fixture.table Fixture.genes "out" "proj" Fixture.empty_fs)
    = Returned tt /\
  files (final (Fixture.run Fixture.table Fixture.genes "out" "proj" Fixture.empty_fs))
    !! output_path "out" "proj" = Some (JsonMapping [("g1", 10.5%float)]).
Proof.
  split; [reflexivity|]. split; [by vm_compute|]. split; [by vm_compute|].
  apply (end_to_end_example
           (Fixture.service Fixture.table) (Fixture.json_loads Fixture.table)
           Fixture.float_of_str "out" "proj" Fixture.empty_fs);
    [reflexivity|by vm_compute|by vm_compute].
Defined.

(** The end-to-end example once more, with A = P2 and B = P1. *)
Lemma partial_failure_contained_witness :
  cobra.well_formed {| cobra.genes := Fixture.genes |} /\
  intact Fixture.empty_fs
    (PyDict.keys (uniprot_id_protein_id_mapping {| cobra.genes := Fixture.genes |})) /\
  "P2" ∈ PyDict.keys (uniprot_id_protein_id_mapping {| cobra.genes := Fixture.genes |}) /\
  cached Fixture.empty_fs "P2" = None /\
  cached Fixture.empty_fs "P1" = None /\
  lookup_failure (Fixture.service Fixture.table) (Fixture.json_loads Fixture.table)
    Fixture.float_of_str "P2" /\
  Fixture.lookup Fixture.table "P1" = Some 10.5%float /\
  (forall cache_files mass_mapping fs',
     "P2" ∉ cache_files -> PyDict.get mass_mapping "P2" = None ->
     resolve_one (Fixture.service Fixture.table) (Fixture.json_loads Fixture.table)
       Fixture.float_of_str cache_files mass_mapping "P2" fs' =
       Result (Returned mass_mapping) fs'
              [Print [PStr ("UniProt search for: " +:+ "P2")];
               Get (uniprot_query_url "P2") accept_json;
               Sleep 0.4]) /\
  value (Fixture.run Fixture.table Fixture.genes "out" "proj" Fixture.empty_fs)
    = Returned tt /\
  requests_for "P2"
    (log (Fixture.run Fixture.table Fixture.genes "out" "proj" Fixture.empty_fs)) = 1 /\
  exists out,
    files (final (Fixture.run Fixture.table Fixture.genes "out" "proj" Fixture.empty_fs))
      !! output_path "out" "proj" = Some (JsonMapping out) /\
    (forall p, p ∈ members Fixture.genes "P1" -> PyDict.get out p = Some 10.5%float) /\
    (forall p, p ∈ members Fixture.genes "P2" -> p ∉ PyDict.keys out).
Proof.
  assert (Hwf : cobra.well_formed {| cobra.genes := Fixture.genes |}).
  { apply (bool_decide_unpack _). by vm_compute. }
  assert (Hi : intact Fixture.empty_fs
    (PyDict.keys (uniprot_id_protein_id_mapping {| cobra.genes := Fixture.genes |}))).
  { vm_compute. repeat constructor. }
  assert (HA : "P2" ∈ PyDict.keys
                 (uniprot_id_protein_id_mapping {| cobra.genes := Fixture.genes |})).
  { vm_compute. right. left. }
  assert (Hf : lookup_failure (Fixture.service Fixture.table)
                 (Fixture.json_loads Fixture.table) Fixture.float_of_str "P2").
  { apply NetworkError. by vm_compute. }
  do 7 (split; [first [exact Hwf|exact Hi|exact HA|exact Hf|by vm_compute]|]).
  apply (partial_failure_contained
           (Fixture.service Fixture.table) (Fixture.json_loads Fixture.table)
           Fixture.float_of_str {| cobra.genes := Fixture.genes |}
           "out" "proj" Fixture.empty_fs "P2" "P1" 10.5%float
           Hwf Hi HA eq_refl eq_refl Hf eq_refl).
Defined.

(** A grouping of P1 and P2 over a cache that holds both. *)
Lemma full_cache_no_request_no_delay_witness :
  NoDup (PyDict.keys [("P1", ["g1"]); ("P2", ["g2"])]) /\
  (forall a, a ∈ PyDict.keys [("P1", ["g1"]); ("P2", ["g2"])] ->
             is_Some (cached Fixture.full_fs a)) /\
  forall e,
    e ∈ log (resolver (Fixture.service Fixture.table) (Fixture.json_loads Fixture.table)
               Fixture.float_of_str [("P1", ["g1"]); ("P2", ["g2"])] Fixture.full_fs) ->
    is_get e = false /\ is_sleep e = false.
Proof.
  assert (Hnd : NoDup (PyDict.keys [("P1", ["g1"]); ("P2", ["g2"])])).
  { apply (bool_decide_unpack _). by vm_compute. }
  assert (Hall : forall a, a ∈ PyDict.keys [("P1", ["g1"]); ("P2", ["g2"])] ->
                           is_Some (cached Fixture.full_fs a)).
  { intros a Ha. apply elem_of_cons in Ha as [->|Ha].
    - exists (Pickled 10.5). by vm_compute.
    - apply list_elem_of_singleton in Ha as ->.
      exists (Pickled 20.25). by vm_compute. }
  split; [exact Hnd|]. split; [exact Hall|].
  exact (full_cache_no_request_no_delay
           (Fixture.service Fixture.table) (Fixture.json_loads Fixture.table)
           Fixture.float_of_str [("P1", ["g1"]); ("P2", ["g2"])] Fixture.full_fs
           Hnd Hall).
Defined.

(** g1 and g2 both carry P1, which resolves to 55.2. *)
Lemma fan_out_witness :
  cobra.well_formed {| cobra.genes := Fixture.shared_genes |} /\
  value (Fixture.run Fixture.shared_table Fixture.shared_genes "out" "proj"
           Fixture.empty_fs) = Returned tt /\
  files (final (Fixture.run Fixture.shared_table Fixture.shared_genes "out" "proj"
                  Fixture.empty_fs))
    !! output_path "out" "proj"
    = Some (JsonMapping [("g1", 55.2%float); ("g2", 55.2%float)]) /\
  value (resolver (Fixture.service Fixture.shared_table)
           (Fixture.json_loads Fixture.shared_table) Fixture.float_of_str
           (uniprot_id_protein_id_mapping {| cobra.genes := Fixture.shared_genes |})
           Fixture.empty_fs) = Returned [("P1", 55.2%float)] /\
  PyDict.get (uniprot_id_protein_id_mapping {| cobra.genes := Fixture.shared_genes |})
    "P1" = Some ["g1"; "g2"] /\
  PyDict.get [("P1", 55.2%float)] "P1" = Some 55.2%float /\
  forall p, p ∈ ["g1"; "g2"] ->
    PyDict.get [("g1", 55.2%float); ("g2", 55.2%float)] p = Some 55.2%float.
Proof.
  assert (Hwf : cobra.well_formed {| cobra.genes := Fixture.shared_genes |}).
  { apply (bool_decide_unpack _). by vm_compute. }
  split_and!; [exact Hwf|by vm_compute..|].
  apply (fan_out
           (Fixture.service Fixture.shared_table)
           (Fixture.json_loads Fixture.shared_table) Fixture.float_of_str
           {| cobra.genes := Fixture.shared_genes |} "out" "proj" Fixture.empty_fs
           [("g1", 55.2%float); ("g2", 55.2%float)] [("P1", 55.2%float)]
           "P1" ["g1"; "g2"] 55.2%float Hwf); by vm_compute.
Defined.

(** The record of P1 cannot be deserialized. *)
Lemma corrupt_cache_is_fatal_witness :
  "P1" ∈ PyDict.keys (uniprot_id_protein_id_mapping {| cobra.genes := Fixture.genes |}) /\
  corrupt Fixture.corrupt_fs "P1" = true /\
  (exists b,
     b ∈ PyDict.keys (uniprot_id_protein_id_mapping {| cobra.genes := Fixture.genes |}) /\
     corrupt Fixture.corrupt_fs b = true /\
     value (Fixture.run Fixture.table Fixture.genes "out" "proj" Fixture.corrupt_fs)
       = Raised (CacheCorrupt (cache_basepath +:+ b))) /\
  files (final (Fixture.run Fixture.table Fixture.genes "out" "proj" Fixture.corrupt_fs))
    = files Fixture.corrupt_fs /\
  (forall c, corrupt Fixture.corrupt_fs c = true ->
     corrupt (final (Fixture.run Fixture.table Fixture.genes "out" "proj"
                       Fixture.corrupt_fs)) c = true /\
     requests_for c (log (Fixture.run Fixture.table Fixture.genes "out" "proj"
                            Fixture.corrupt_fs)) = 0).
Proof.
  assert (HA : "P1" ∈ PyDict.keys
                 (uniprot_id_protein_id_mapping {| cobra.genes := Fixture.genes |})).
  { vm_compute. left. }
  split; [exact HA|]. split; [by vm_compute|].
  exact (corrupt_cache_is_fatal
           (Fixture.service Fixture.table) (Fixture.json_loads Fixture.table)
           Fixture.float_of_str {| cobra.genes := Fixture.genes |}
           "out" "proj" Fixture.corrupt_fs "P1" HA eq_refl).
Defined.

(** The output path holds a file of another kind before the run. *)
Lemma output_written_at_path_witness :
  files Fixture.stale_fs !! "out/proj_protein_id_mass_mapping.json"
    = Some (Other "stale") /\
  value (Fixture.run Fixture.table Fixture.genes "out" "proj" Fixture.stale_fs)
    = Returned tt /\
  ends_with_separator (standardize_folder "out") = true /\
  exists mass_mapping,
    value (resolver (Fixture.service Fixture.table) (Fixture.json_loads Fixture.table)
             Fixture.float_of_str
             (uniprot_id_protein_id_mapping {| cobra.genes := Fixture.genes |})
             Fixture.stale_fs) = Returned mass_mapping /\
    files (final (Fixture.run Fixture.table Fixture.genes "out" "proj" Fixture.stale_fs))
    = <[(standardize_folder "out" +:+ "proj") +:+ "_protein_id_mass_mapping.json" :=
          JsonMapping
            (assembled (uniprot_id_protein_id_mapping {| cobra.genes := Fixture.genes |})
               mass_mapping)]> (files Fixture.stale_fs).
Proof.
  split; [by vm_compute|]. split; [by vm_compute|].
  apply (output_written_at_path
           (Fixture.service Fixture.table) (Fixture.json_loads Fixture.table)
           Fixture.float_of_str {| cobra.genes := Fixture.genes |}
           "out" "proj" Fixture.stale_fs).
  by vm_compute.
Defined.

(** The end-to-end example run: P1 alone is resolved. *)
Lemma except_branch_unreachable_witness :
  value (resolver (Fixture.service Fixture.table) (Fixture.json_loads Fixture.table)
           Fixture.float_of_str
           (uniprot_id_protein_id_mapping {| cobra.genes := Fixture.genes |})
           Fixture.empty_fs) = Returned [("P1", 10.5%float)] /\
  (forall a, a ∈ PyDict.keys [("P1", 10.5%float)] ->
     a ∈ PyDict.keys (uniprot_id_protein_id_mapping {| cobra.genes := Fixture.genes |}) /\
     is_Some (PyDict.get
                (uniprot_id_protein_id_mapping {| cobra.genes := Fixture.genes |}) a)) /\
  forall a,
    no_mass_found a
      ∉ log (Fixture.run Fixture.table Fixture.genes "out" "proj" Fixture.empty_fs).
Proof.
  assert (Hres : value (resolver (Fixture.service Fixture.table)
           (Fixture.json_loads Fixture.table) Fixture.float_of_str
           (uniprot_id_protein_id_mapping {| cobra.genes := Fixture.genes |})
           Fixture.empty_fs) = Returned [("P1", 10.5%float)]) by (by vm_compute).
  pose proof (except_branch_unreachable
           (Fixture.service Fixture.table) (Fixture.json_loads Fixture.table)
           Fixture.float_of_str {| cobra.genes := Fixture.genes |}
           "out" "proj" Fixture.empty_fs) as [Hkeys Hlog].
  split; [exact Hres|]. split; [|exact Hlog].
  exact (proj1 (Hkeys _ Hres)).
Defined.


(** ** Further facts *)

Module More.
Import PyDict PyDictFacts Effects.

(** *** Order and coverage of the grouping *)

Lemma first_occurrences_seen seen seen' l :
  (forall a, a ∈ seen <-> a ∈ seen') ->
  first_occurrences seen l = first_occurrences seen' l.
Proof.
  revert seen seen'. induction l as [|a l IH]; intros seen seen' Hs; simpl; [done|].
  destruct (decide (a ∈ seen)) as [Ha|Ha].
  - rewrite decide_True by (by apply Hs). by apply IH.
  - rewrite decide_False by (by rewrite <- Hs). f_equal. apply IH.
    intros b. rewrite !elem_of_app. by rewrite Hs.
Qed.

Lemma keys_group_gene mapping gene :
  keys (group_gene mapping gene) =
    match accession gene with
    | Some a => if decide (a ∈ keys mapping) then keys mapping else keys mapping ++ [a]
    | None => keys mapping
    end.
Proof.
  unfold group_gene, accession.
  destruct (cobra.annotation gene !! "uniprot") as [a|]; [|done].
  destruct (get mapping a) as [ids|] eqn:Hget; rewrite keys_set; unfold mem;
    rewrite Hget.
  - rewrite decide_True; [done|]. apply elem_of_keys. eauto.
  - rewrite decide_False; [done|]. by apply not_elem_of_keys.
Qed.

Lemma keys_fold_group genes mapping :
  keys (fold_left group_gene genes mapping) =
    keys mapping ++ first_occurrences (keys mapping) (omap accession genes).
Proof.
  revert mapping. induction genes as [|g genes IH]; intros mapping; csimpl.
  - by rewrite app_nil_r.
  - rewrite IH, keys_group_gene.
    destruct (accession g) as [a|]; csimpl; [|done].
    destruct (decide (a ∈ keys mapping)); [done|].
    by rewrite <- app_assoc.
Qed.

Lemma concat_set_fresh (d : t (list string)) k v :
  k ∉ keys d -> concat (set d k v).*2 = concat d.*2 ++ v.
Proof.
  intros Hk. rewrite set_fresh by done.
  rewrite fmap_app, concat_app. csimpl. by rewrite app_nil_r.
Qed.

Lemma concat_set_append (d : t (list string)) k old x :
  get d k = Some old -> concat (set d k (old ++ x)).*2 ≡ₚ concat d.*2 ++ x.
Proof.
  induction d as [|[k' v'] d IH]; csimpl; [done|].
  destruct (decide (k = k')) as [->|Hne]; csimpl.
  - intros [= ->]. rewrite <- !app_assoc. f_equiv. apply Permutation_app_comm.
  - intros Hget. rewrite IH by done. by rewrite app_assoc.
Qed.

Lemma concat_group_gene mapping gene :
  concat (group_gene mapping gene).*2 ≡ₚ
    concat mapping.*2 ++
      match accession gene with Some _ => [cobra.id gene] | None => [] end.
Proof.
  unfold group_gene, accession.
  destruct (cobra.annotation gene !! "uniprot") as [a|]; [|by rewrite app_nil_r].
  destruct (get mapping a) as [ids|] eqn:Hget.
  - by apply concat_set_append.
  - rewrite concat_set_fresh; [done|]. by apply not_elem_of_keys.
Qed.

Lemma concat_fold_group genes mapping :
  concat (fold_left group_gene genes mapping).*2 ≡ₚ
    concat mapping.*2 ++
      (cobra.id <$> filter (fun gene => is_Some (accession gene)) genes).
Proof.
  revert mapping. induction genes as [|g genes IH]; intros mapping; csimpl.
  - by rewrite app_nil_r.
  - rewrite IH, concat_group_gene, filter_cons.
    destruct (accession g) as [a|] eqn:Ha.
    + rewrite decide_True by eauto. csimpl. by rewrite <- app_assoc.
    + rewrite decide_False by (by intros [? ?]). by rewrite app_nil_r.
Qed.

(** *** Loops that stop early *)

Lemma for_each_app {A S} (l1 l2 : list A) (body : S -> A -> M S) s fs :
  for_each (l1 ++ l2) body s fs =
    let r1 := for_each l1 body s fs in
    match value r1 with
    | Raised e => Result (Raised e) (final r1) (log r1)
    | Returned s' =>
        let r2 := for_each l2 body s' (final r1) in
        Result (value r2) (final r2) (log r1 ++ log r2)
    end.
Proof.
  revert s fs. induction l1 as [|a l1 IH]; intros s fs.
  - cbn. by destruct (for_each l2 body s fs).
  - cbn [app for_each].
    destruct (body s a fs) as [[s'|e] fs' l] eqn:Hbody.
    + rewrite !(bind_returned _ _ _ _ _ _ Hbody). rewrite IH. cbn zeta.
      destruct (value (for_each l1 body s' fs')); cbn [value final log]; [|done].
      by rewrite app_assoc.
    + by rewrite !(bind_raised _ _ _ _ _ _ Hbody).
Qed.

(** The accessions split at the first one whose record cannot be read. *)
Lemma first_corrupt fs ids :
  ~ intact fs ids ->
  exists l1 b l2, ids = l1 ++ b :: l2 /\ intact fs l1 /\ corrupt fs b = true.
Proof.
  unfold intact. induction ids as [|a ids IH]; intros Hn.
  - destruct Hn. constructor.
  - destruct (corrupt fs a) eqn:Ha.
    + exists [], a, ids. split_and!; [done|constructor|done].
    + destruct IH as (l1 & b & l2 & -> & Hi & Hb).
      { intros Hi. apply Hn. by constructor. }
      exists (a :: l1), b, l2. split_and!; [done|by constructor|done].
Qed.

Section stopping.

Variable requests_get : string -> PyDict.t string -> option Response.
Variable json_loads : string -> option json.
Variable float_of_str : string -> option float.

Local Abbreviation lookup_mass :=
  (lookup_mass requests_get json_loads float_of_str).
Local Abbreviation resolve_one :=
  (resolve_one requests_get json_loads float_of_str).
Local Abbreviation resolved_of :=
  (resolved_of requests_get json_loads float_of_str).
Local Abbreviation pickles_after :=
  (pickles_after requests_get json_loads float_of_str).
Local Abbreviation resolver :=
  (resolver requests_get json_loads float_of_str).
Local Abbreviation run :=
  (get_protein_mass_mapping requests_get json_loads float_of_str).

(** The loop stops at the first undeserializable record, with what it did
    for the accessions before it. *)
Lemma for_each_resolve_stops cf l1 b l2 acc fs :
  NoDup (l1 ++ b :: l2) -> listed cf fs (l1 ++ b :: l2) ->
  intact fs l1 -> corrupt fs b = true ->
  (forall a, a ∈ l1 ++ b :: l2 -> a ∉ keys acc) ->
  let r := for_each (l1 ++ b :: l2) (resolve_one cf) acc fs in
  value r = Raised (CacheCorrupt (cache_basepath +:+ b)) /\
  folders (final r) = folders fs /\
  files (final r) = files fs /\
  (forall p, pickles (final r) !! p = pickles_after fs l1 p) /\
  log r = l1 ≫= events_of fs.
Proof.
  intros Hnd Hl Hi Hb Hacc r. subst r. rewrite for_each_app. cbn zeta.
  apply NoDup_app in Hnd as (Hnd1 & Hdisj & Hnd2).
  destruct (Resolver.for_each_resolve requests_get json_loads float_of_str
              cf l1 acc fs) as (Hv & Hfo & Hfi & Hpk & Hlog);
    [done
    |by intros a Ha; apply Hl, elem_of_app; left
    |done
    |by intros a Ha; apply Hacc, elem_of_app; left|].
  rewrite Hv. cbn [for_each].
  unfold corrupt in Hb.
  destruct (cached fs b) as [[m|]|] eqn:Hcb; try done.
  assert (Hin : b ∈ cf).
  { apply Hl; [|by rewrite Hcb]. apply elem_of_app. right. left. }
  assert (Hcb' : cached (final (for_each l1 (resolve_one cf) acc fs)) b
                 = Some Undeserializable).
  { unfold cached. rewrite Hpk. unfold pickles_after. unfold cached in Hcb. by rewrite Hcb. }
  erewrite bind_raised by (by apply Resolver.resolve_one_corrupt).
  cbn [value final log]. rewrite app_nil_r. done.
Qed.

Lemma resolver_stops id_mapping fs l1 b l2 :
  NoDup (keys id_mapping) -> keys id_mapping = l1 ++ b :: l2 ->
  intact fs l1 -> corrupt fs b = true ->
  let r := resolver id_mapping fs in
  value r = Raised (CacheCorrupt (cache_basepath +:+ b)) /\
  folders (final r) = folders (with_cache_folders fs) /\
  files (final r) = files fs /\
  (forall p, pickles (final r) !! p = pickles_after fs l1 p) /\
  log r = starting :: (l1 ≫= events_of fs).
Proof.
  intros Hnd Hk Hi Hb r. subst r. rewrite Resolver.resolver_unfold. cbn zeta.
  rewrite Hk in *.
  edestruct (for_each_resolve_stops
               (omap (strip_prefix cache_basepath) (map_to_list (pickles fs)).*1)
               l1 b l2 empty (with_cache_folders fs))
    as (Hv & Hfo & Hfi & Hpk & Hlog);
    [done|apply Resolver.listed_get_files|exact Hi|exact Hb
    |by intros a _ ?%elem_of_nil|].
  cbn [value final log]. rewrite Hv, Hfo, Hfi, Hlog. split_and!; try done.
Qed.

Lemma run_stops model project_folder project_name fs l1 b l2 :
  keys (uniprot_id_protein_id_mapping model) = l1 ++ b :: l2 ->
  intact fs l1 -> corrupt fs b = true ->
  let r := run model project_folder project_name fs in
  value r = Raised (CacheCorrupt (cache_basepath +:+ b)) /\
  folders (final r) = folders (with_cache_folders fs) /\
  files (final r) = files fs /\
  (forall p, pickles (final r) !! p = pickles_after fs l1 p) /\
  log r = starting :: (l1 ≫= events_of fs).
Proof.
  intros Hk Hi Hb r. subst r. rewrite Workflow.run_unfold. cbn zeta.
  destruct (resolver_stops _ fs l1 b l2 (Grouping.NoDup_keys_grouping model)
              Hk Hi Hb) as (Hv & Hrest).
  rewrite Hv. cbn [value final log]. by split.
Qed.

(** What a run leaves, whatever its outcome. *)
Lemma run_any model project_folder project_name fs :
  let r := run model project_folder project_name fs in
  folders (final r) = folders (with_cache_folders fs) /\
  (forall p x, pickles fs !! p = Some x -> pickles (final r) !! p = Some x) /\
  (forall p, p ≠ output_path project_folder project_name ->
             files (final r) !! p = files fs !! p).
Proof.
  intros r. subst r. rewrite Workflow.run_unfold. cbn zeta.
  destruct (Resolver.resolver_any requests_get json_loads float_of_str _ fs
              (Grouping.NoDup_keys_grouping model))
    as (Hfo & Hfi & Hpk & _).
  destruct (value (resolver _ fs)); cbn [final with_file folders pickles files];
    rewrite ?Hfi; split_and!; try done.
  intros p Hp. by rewrite lookup_insert_ne.
Qed.

Lemma keys_resolved_of_filter fs ids :
  keys (resolved_of fs ids) =
    filter (fun a => is_Some (resolution requests_get json_loads float_of_str fs a)) ids.
Proof.
  unfold keys. induction ids as [|a ids IH]; [done|].
  rewrite filter_cons. unfold resolved_of in *. csimpl.
  destruct (resolution requests_get json_loads float_of_str fs a) as [m|] eqn:Hr;
    csimpl.
  - destruct (decide (is_Some (Some m))) as [_|Hn]; [by rewrite IH|].
    destruct Hn. eauto.
  - destruct (decide (is_Some (@None float))) as [[? ?]|_]; done.
Qed.

End stopping.

Lemma filter_iff_elem_of {A} (P Q : A -> Prop)
    `{!forall x, Decision (P x)} `{!forall x, Decision (Q x)} (l : list A) :
  (forall x, x ∈ l -> P x <-> Q x) -> filter P l = filter Q l.
Proof.
  induction l as [|x l IH]; intros Hext; [done|].
  rewrite !filter_cons.
  rewrite IH by (intros y Hy; apply Hext; by right).
  destruct (decide (P x)) as [HP|HP].
  - rewrite decide_True; [done|]. by apply Hext; [left|].
  - rewrite decide_False; [done|]. rewrite <- Hext by left. done.
Qed.

Lemma assembly_events_filter (id_mapping : t (list string)) ids :
  ids ≫= assembly_events id_mapping =
    no_mass_found <$> filter (fun a => a ∉ keys id_mapping) ids.
Proof.
  induction ids as [|a ids IH]; [done|]. csimpl.
  rewrite IH, filter_cons. unfold assembly_events.
  destruct (mem a id_mapping) eqn:Hm.
  - apply mem_true in Hm. by rewrite decide_False by (by intros ?).
  - rewrite decide_True; [done|]. intros Hin%mem_true. congruence.
Qed.

Lemma fold_group_unannotated genes mapping :
  (forall gene, gene ∈ genes -> accession gene = None) ->
  fold_left group_gene genes mapping = mapping.
Proof.
  revert mapping. induction genes as [|g genes IH]; intros mapping Hn; [done|].
  cbn [fold_left]. unfold group_gene at 2.
  change (cobra.annotation g !! "uniprot") with (accession g).
  rewrite (Hn g) by left. apply IH. intros g' Hg'. apply Hn. by right.
Qed.

(** *** Counting requests and pauses *)

Lemma count_events_app kind l1 l2 :
  count_events kind (l1 ++ l2) = count_events kind l1 + count_events kind l2.
Proof. unfold count_events. by rewrite filter_app, length_app. Qed.

Lemma count_events_of fs a :
  count_events is_get (events_of fs a) = (if has_record fs a then 0 else 1) /\
  count_events is_sleep (events_of fs a) = (if has_record fs a then 0 else 1).
Proof.
  unfold events_of, has_record. by destruct (cached fs a) as [[m|]|].
Qed.

Lemma count_events_bind fs ids :
  count_events is_get (ids ≫= events_of fs)
    = length (filter (fun a => has_record fs a = false) ids) /\
  count_events is_sleep (ids ≫= events_of fs)
    = length (filter (fun a => has_record fs a = false) ids).
Proof.
  induction ids as [|a ids [IHg IHs]]; [done|]. csimpl.
  rewrite !count_events_app, IHg, IHs, filter_cons.
  destruct (count_events_of fs a) as [-> ->].
  destruct (has_record fs a); [by rewrite decide_False|by rewrite decide_True].
Qed.

End More.

(** ** Further properties of the code *)

Section extras.

Variable requests_get : string -> PyDict.t string -> option Response.
Variable json_loads : string -> option json.
Variable float_of_str : string -> option float.

Local Abbreviation run :=
  (get_protein_mass_mapping requests_get json_loads float_of_str).
Local Abbreviation resolver :=
  (resolver requests_get json_loads float_of_str).
Local Abbreviation lookup_mass :=
  (lookup_mass requests_get json_loads float_of_str).
Local Abbreviation resolution :=
  (resolution requests_get json_loads float_of_str).
Local Abbreviation resolved_of :=
  (resolved_of requests_get json_loads float_of_str).

(** X1. The grouping has distinct keys; an accession is a key exactly when
    some gene of the model carries it; and the group of a key is never empty:
    it is the identifiers of the genes annotated with that accession, in the
    order of [model.genes]. *)
Theorem grouping_holds_annotated_genes model a :
  let id_mapping := uniprot_id_protein_id_mapping model in
  NoDup (PyDict.keys id_mapping) /\
  (a ∈ PyDict.keys id_mapping <->
   exists gene, gene ∈ cobra.genes model /\
                cobra.annotation gene !! "uniprot" = Some a) /\
  (forall ids, PyDict.get id_mapping a = Some ids ->
     ids ≠ [] /\
     ids = cobra.id <$>
             filter (fun gene => cobra.annotation gene !! "uniprot" = Some a)
                    (cobra.genes model)).
Proof.
  intros idm. split_and!.
  - apply Grouping.NoDup_keys_grouping.
  - apply Grouping.elem_of_keys_grouping.
  - intros ids Hget. split.
    + unfold idm in Hget. rewrite Grouping.get_grouping in Hget.
      destruct (members (cobra.genes model) a); congruence.
    + exact (Grouping.get_grouping_Some _ _ _ Hget).
Qed.

(** X2. The keys of the grouping, hence the order in which the accessions
    are resolved, are the accessions of the annotated genes in the order of
    their first occurrence in [model.genes]. *)
Theorem grouping_keys_in_first_occurrence_order model :
  PyDict.keys (uniprot_id_protein_id_mapping model) =
    first_occurrences []
      (omap (fun gene => cobra.annotation gene !! "uniprot") (cobra.genes model)).
Proof.
  unfold uniprot_id_protein_id_mapping. by rewrite More.keys_fold_group.
Qed.

(** X3. The groups taken together hold the identifier of every annotated
    gene once per gene, and nothing else: grouping loses no gene and adds
    none. *)
Theorem grouping_partitions_annotated_genes model :
  concat (uniprot_id_protein_id_mapping model).*2 ≡ₚ
    cobra.id <$>
      filter (fun gene => is_Some (cobra.annotation gene !! "uniprot"))
             (cobra.genes model).
Proof.
  unfold uniprot_id_protein_id_mapping. by rewrite More.concat_fold_group.
Qed.


(** X5. When the resolver returns, its dictionary has distinct keys: the
    accessions of the grouping that resolve, in the order of the grouping.
    A readable cache record gives the mass whatever the remote service
    would answer; without a record the mass is the one the lookup stores;
    an accession outside the grouping is never a key. *)
Theorem resolver_result (id_mapping : PyDict.t (list string)) fs mass_mapping :
  NoDup (PyDict.keys id_mapping) ->
  value (resolver id_mapping fs) = Returned mass_mapping ->
  NoDup (PyDict.keys mass_mapping) /\
  PyDict.keys mass_mapping
    = filter (fun a => is_Some (PyDict.get mass_mapping a)) (PyDict.keys id_mapping) /\
  (forall a mass, a ∈ PyDict.keys id_mapping ->
     cached fs a = Some (Pickled mass) -> PyDict.get mass_mapping a = Some mass) /\
  (forall a, a ∈ PyDict.keys id_mapping ->
     cached fs a = None -> PyDict.get mass_mapping a = lookup_mass a) /\
  (forall a, a ∉ PyDict.keys id_mapping -> PyDict.get mass_mapping a = None).
Proof.
  intros Hnd Hv.
  destruct (Resolver.resolver_any requests_get json_loads float_of_str
              id_mapping fs Hnd) as (_ & _ & _ & _ & _ & Hret).
  specialize (Hret _ Hv).
  destruct (Resolver.resolver_returns requests_get json_loads float_of_str
              id_mapping fs Hnd Hret) as (Hv' & _).
  assert (mass_mapping = resolved_of fs (PyDict.keys id_mapping)) as ->
    by congruence.
  assert (Hkeys : PyDict.keys (resolved_of fs (PyDict.keys id_mapping))
                  = filter (fun a => is_Some (resolution fs a)) (PyDict.keys id_mapping))
    by apply More.keys_resolved_of_filter.
  split_and!.
  - rewrite Hkeys. by apply NoDup_filter.
  - rewrite Hkeys. apply More.filter_iff_elem_of. intros a Ha.
    by rewrite Resolver.get_resolved_of, decide_True.
  - intros a mass Ha Hc. rewrite Resolver.get_resolved_of, decide_True by done.
    unfold resolution. by rewrite Hc.
  - intros a Ha Hc. rewrite Resolver.get_resolved_of, decide_True by done.
    unfold resolution. by rewrite Hc.
  - intros a Ha. by rewrite Resolver.get_resolved_of, decide_False.
Qed.

(** X6. Whatever the outcome of a run, it never changes or removes a cache
    record that was there, both cache folders are there afterwards, and no
    plain file other than the output file is touched. *)
Theorem run_keeps_what_was_there model project_folder project_name fs :
  let r := run model project_folder project_name fs in
  (forall p x, pickles fs !! p = Some x -> pickles (final r) !! p = Some x) /\
  folders (final r) = {[cache_basepath]} ∪ ({["./_cache/"]} ∪ folders fs) /\
  (forall p, p ≠ output_path project_folder project_name ->
             files (final r) !! p = files fs !! p).
Proof.
  intros r.
  destruct (More.run_any requests_get json_loads float_of_str
              model project_folder project_name fs) as (Hfo & Hpk & Hfi).
  split_and!; done.
Qed.

(** X7. After a run that returned, a grouped accession that had no cache
    record has one exactly when its lookup stored a mass, holding that
    mass; and no record is created under any other path. *)
Theorem fetched_masses_are_cached model project_folder project_name fs :
  let id_mapping := uniprot_id_protein_id_mapping model in
  let r := run model project_folder project_name fs in
  value r = Returned tt ->
  (forall a, a ∈ PyDict.keys id_mapping -> cached fs a = None ->
             cached (final r) a = Pickled <$> lookup_mass a) /\
  (forall p, (forall a, a ∈ PyDict.keys id_mapping -> p ≠ cache_basepath +:+ a) ->
             pickles (final r) !! p = pickles fs !! p).
Proof.
  intros idm r Hv. apply Workflow.run_returned_intact in Hv as Hi.
  destruct (Workflow.run_returns requests_get json_loads float_of_str
              model project_folder project_name fs Hi) as (_ & _ & _ & _ & Hpk & _).
  fold r idm in Hpk. split.
  - intros a Ha Hc. unfold cached in *. rewrite Hpk. unfold pickles_after.
    rewrite Hc, Effects.strip_prefix_app. cbn. by rewrite decide_True.
  - intros p Hp. rewrite Hpk. unfold pickles_after.
    destruct (pickles fs !! p); [done|].
    destruct (strip_prefix cache_basepath p) as [a|] eqn:Ha; [|done].
    apply Effects.strip_prefix_Some in Ha. cbn.
    case_decide as Hin; [|done]. by destruct (Hp a Hin).
Qed.

(** X8. After a run that returned, the cache holds every resolved mass:
    each key of ResolvedMass has a readable record with its mass, so a later
    run needs no request for it. *)
Theorem resolved_masses_are_cached model project_folder project_name fs
    mass_mapping a mass :
  let id_mapping := uniprot_id_protein_id_mapping model in
  let r := run model project_folder project_name fs in
  value r = Returned tt ->
  value (resolver id_mapping fs) = Returned mass_mapping ->
  PyDict.get mass_mapping a = Some mass ->
  cached (final r) a = Some (Pickled mass).
Proof.
  intros idm r Hv Hres Hget. apply Workflow.run_returned_intact in Hv as Hi.
  apply Workflow.resolver_value in Hres as ->.
  rewrite Resolver.get_resolved_of in Hget. case_decide as Ha; [|done].
  destruct (Workflow.run_returns requests_get json_loads float_of_str
              model project_folder project_name fs Hi) as (_ & _ & _ & _ & Hpk & _).
  fold r idm in Hpk.
  unfold cached. rewrite Hpk. unfold pickles_after.
  apply Workflow.resolution_cases in Hget as [Hc|[Hc Hl]]; unfold cached in Hc;
    rewrite Hc; [done|].
  rewrite Effects.strip_prefix_app. cbn. rewrite decide_True by done.
  by rewrite Hl.
Qed.

(** X9. Running again after a run that returned, on the file system it
    left: the second run returns, leaves the plain files and the cache
    records as they are, requests no accession that the first run resolved,
    and requests once each grouped accession that the first run could not
    resolve. *)
Theorem rerun_requests_only_failures model project_folder project_name fs :
  let id_mapping := uniprot_id_protein_id_mapping model in
  let r1 := run model project_folder project_name fs in
  let r2 := run model project_folder project_name (final r1) in
  value r1 = Returned tt ->
  value r2 = Returned tt /\
  files (final r2) = files (final r1) /\
  pickles (final r2) = pickles (final r1) /\
  (forall a mass, resolution fs a = Some mass -> requests_for a (log r2) = 0) /\
  (forall a, a ∈ PyDict.keys id_mapping -> resolution fs a = None ->
             requests_for a (log r2) = 1).
Proof.
  intros idm r1 r2 Hv1. apply Workflow.run_returned_intact in Hv1 as Hi.
  pose proof (Grouping.NoDup_keys_grouping model) as Hnd. fold idm in Hnd, Hi.
  destruct (Workflow.run_returns requests_get json_loads float_of_str
              model project_folder project_name fs Hi)
    as (_ & _ & _ & Hfi1 & Hpk1 & _).
  fold r1 idm in Hfi1, Hpk1.
  assert (Hc1 : forall a, a ∈ PyDict.keys idm ->
              cached (final r1) a =
                match cached fs a with
                | Some x => Some x
                | None => Pickled <$> lookup_mass a
                end).
  { intros a Ha. unfold cached. rewrite Hpk1. unfold pickles_after.
    destruct (pickles fs !! (cache_basepath +:+ a)); [done|].
    rewrite Effects.strip_prefix_app. cbn. by rewrite decide_True. }
  assert (Hok : forall a, a ∈ PyDict.keys idm -> corrupt fs a = false).
  { intros a Ha. unfold intact in Hi. rewrite Forall_forall in Hi. by apply Hi. }
  assert (Hi1 : intact (final r1) (PyDict.keys idm)).
  { apply Forall_forall. intros a Ha. specialize (Hok a Ha).
    unfold corrupt in *. rewrite Hc1 by done.
    destruct (cached fs a) as [[m|]|]; try done. by destruct (lookup_mass a). }
  assert (Hres : forall a, a ∈ PyDict.keys idm ->
              resolution (final r1) a = resolution fs a).
  { intros a Ha. specialize (Hok a Ha). unfold resolution, corrupt in *.
    rewrite Hc1 by done.
    destruct (cached fs a) as [[m|]|]; try done. by destruct (lookup_mass a). }
  assert (Hsame : resolved_of (final r1) (PyDict.keys idm)
                  = resolved_of fs (PyDict.keys idm)).
  { by apply Resolver.resolved_of_ext_resolution. }
  destruct (Workflow.run_returns requests_get json_loads float_of_str
              model project_folder project_name (final r1) Hi1)
    as (Hv2 & _ & _ & Hfi2 & Hpk2 & Hlog2).
  fold r2 idm in Hv2, Hfi2, Hpk2, Hlog2.
  assert (Hreq : forall a,
            requests_for a (log r2) =
              if decide (a ∈ PyDict.keys idm)
              then match cached (final r1) a with None => 1 | Some _ => 0 end
              else 0).
  { intros a. rewrite Hlog2.
    change (starting :: (PyDict.keys idm ≫= events_of (final r1)) ++ [done_message])
      with ([starting] ++ (PyDict.keys idm ≫= events_of (final r1)) ++ [done_message]).
    rewrite !Workflow.requests_for_app, Workflow.requests_for_events by done.
    change (requests_for a [starting]) with 0.
    change (requests_for a [done_message]) with 0. lia. }
  split_and!; [done| | | |].
  - by rewrite Hfi2, Hsame, Hfi1, insert_insert_eq.
  - apply map_eq. intros p. rewrite Hpk2. unfold pickles_after.
    destruct (pickles (final r1) !! p) eqn:Hp; [done|].
    destruct (strip_prefix cache_basepath p) as [a|] eqn:Ha; [|done].
    apply Effects.strip_prefix_Some in Ha as ->. cbn.
    case_decide as Hin; [|done].
    change (cached (final r1) a = None) in Hp. rewrite Hc1 in Hp by done.
    destruct (cached fs a); [done|]. by destruct (lookup_mass a).
  - intros a mass Hr. rewrite Hreq. case_decide as Hin; [|done].
    rewrite Hc1 by done. unfold resolution in Hr.
    destruct (cached fs a); [done|]. by rewrite Hr.
  - intros a Hin Hr. rewrite Hreq, decide_True by done.
    rewrite Hc1 by done. specialize (Hok a Hin). unfold resolution, corrupt in *.
    destruct (cached fs a) as [[m|]|]; try done. by rewrite Hr.
Qed.

(** X10. In every run, returned or not, there are as many pauses as
    requests: each request is followed by its pause even when the lookup
    fails. In a run that returned, both are the number of grouped accessions
    without a cache record. *)
Theorem one_pause_per_request model project_folder project_name fs :
  let id_mapping := uniprot_id_protein_id_mapping model in
  let r := run model project_folder project_name fs in
  count_events is_sleep (log r) = count_events is_get (log r) /\
  (value r = Returned tt ->
   count_events is_get (log r)
     = length (filter (fun a => has_record fs a = false) (PyDict.keys id_mapping))).
Proof.
  intros idm r.
  assert (Hcons : forall l tl,
            count_events is_get (starting :: (l ≫= events_of fs) ++ tl)
              = length (filter (fun a => has_record fs a = false) l)
                + count_events is_get tl /\
            count_events is_sleep (starting :: (l ≫= events_of fs) ++ tl)
              = length (filter (fun a => has_record fs a = false) l)
                + count_events is_sleep tl).
  { intros l tl. destruct (More.count_events_bind fs l) as [Hg Hs].
    change (starting :: (l ≫= events_of fs) ++ tl)
      with ([starting] ++ (l ≫= events_of fs) ++ tl).
    rewrite !More.count_events_app, Hg, Hs. done. }
  destruct (decide (intact fs (PyDict.keys idm))) as [Hi|Hn].
  - destruct (Workflow.run_returns requests_get json_loads float_of_str
                model project_folder project_name fs Hi) as (_ & _ & _ & _ & _ & Hlog).
    fold r idm in Hlog. rewrite Hlog.
    destruct (Hcons (PyDict.keys idm) [done_message]) as [-> ->].
    split; [done|]. intros _. change (count_events is_get [done_message]) with 0. lia.
  - apply More.first_corrupt in Hn as (l1 & b & l2 & Hk & Hi & Hb).
    destruct (More.run_stops requests_get json_loads float_of_str
                model project_folder project_name fs l1 b l2 Hk Hi Hb)
      as (Hv & _ & _ & _ & Hlog).
    fold r in Hv, Hlog. rewrite Hlog. split; [|by rewrite Hv].
    rewrite <- (app_nil_r (l1 ≫= events_of fs)).
    by destruct (Hcons l1 []) as [-> ->].
Qed.

(** X11. A run stops at the first grouped accession, in processing order,
    whose record cannot be deserialized: it raises for that record and
    writes no output, but what it did before stays: the accessions before
    it were processed and the masses fetched for them are in the cache, and
    the accessions after it were neither requested nor written. *)
Theorem run_stops_at_first_unreadable_record
    model project_folder project_name fs l1 b l2 :
  let r := run model project_folder project_name fs in
  PyDict.keys (uniprot_id_protein_id_mapping model) = l1 ++ b :: l2 ->
  intact fs l1 ->
  corrupt fs b = true ->
  value r = Raised (CacheCorrupt (cache_basepath +:+ b)) /\
  files (final r) = files fs /\
  log r = starting :: (l1 ≫= events_of fs) /\
  (forall a, a ∈ l1 -> cached fs a = None ->
             cached (final r) a = Pickled <$> lookup_mass a) /\
  (forall a, a ∈ l2 ->
             cached (final r) a = cached fs a /\ requests_for a (log r) = 0).
Proof.
  intros r Hk Hi Hb.
  destruct (More.run_stops requests_get json_loads float_of_str
              model project_folder project_name fs l1 b l2 Hk Hi Hb)
    as (Hv & _ & Hfi & Hpk & Hlog).
  fold r in Hv, Hfi, Hpk, Hlog.
  pose proof (Grouping.NoDup_keys_grouping model) as Hnd. rewrite Hk in Hnd.
  apply NoDup_app in Hnd as (Hnd1 & Hdisj & Hnd2).
  split_and!; [done|done|done| |].
  - intros a Ha Hc. unfold cached in *. rewrite Hpk. unfold pickles_after.
    rewrite Hc, Effects.strip_prefix_app. cbn. by rewrite decide_True.
  - intros a Ha.
    assert (Hnin : a ∉ l1).
    { intros Hin. apply (Hdisj a Hin). by right. }
    split.
    + unfold cached. rewrite Hpk. unfold pickles_after.
      destruct (pickles fs !! (cache_basepath +:+ a)); [done|].
      rewrite Effects.strip_prefix_app. cbn. by rewrite decide_False.
    + rewrite Hlog. change (starting :: (l1 ≫= events_of fs))
        with ([starting] ++ (l1 ≫= events_of fs)).
      rewrite Workflow.requests_for_app, Workflow.requests_for_events by done.
      by rewrite decide_False.
Qed.


(** X13. In a model (genes have distinct identifiers), the mapping a run
    writes is determined gene by gene: the identifier of a gene is mapped to
    what the accession of the gene resolves to, and is absent when the gene
    has no annotation or its accession does not resolve. Nothing that is not
    the identifier of a gene is in the mapping. *)
Theorem output_gene_by_gene model project_folder project_name fs out :
  let r := run model project_folder project_name fs in
  cobra.well_formed model ->
  value r = Returned tt ->
  files (final r) !! output_path project_folder project_name
    = Some (JsonMapping out) ->
  (forall gene, gene ∈ cobra.genes model ->
     PyDict.get out (cobra.id gene)
       = cobra.annotation gene !! "uniprot" ≫= resolution fs) /\
  (forall p, p ∉ cobra.id <$> cobra.genes model -> PyDict.get out p = None).
Proof.
  intros r Hwf Hv Hout.
  destruct (Workflow.run_output _ _ _ _ _ _ _ _ Hv Hout) as [Hi ->].
  set (idm := uniprot_id_protein_id_mapping model).
  assert (Hkey : forall p,
            p ∈ PyDict.keys (assembled idm (resolved_of fs (PyDict.keys idm))) ->
            exists gene a mass,
              gene ∈ cobra.genes model /\ cobra.id gene = p /\
              accession gene = Some a /\ resolution fs a = Some mass).
  { intros p (a & pids & Hid & [mass Hm] & Hp)%Assembler.elem_of_keys_assembled.
    apply Grouping.get_grouping_Some in Hid as ->.
    apply Grouping.elem_of_members in Hp as (gene & Hg & Hgid & Ha).
    exists gene, a, mass. split_and!; try done.
    rewrite Resolver.get_resolved_of in Hm. by case_decide. }
  split.
  - intros gene Hg. change (cobra.annotation gene !! "uniprot") with (accession gene).
    destruct (accession gene) as [a|] eqn:Ha; cbn;
      [destruct (resolution fs a) as [mass|] eqn:Hr|].
    + assert (Hp : cobra.id gene ∈ members (cobra.genes model) a).
      { apply Grouping.elem_of_members. eauto. }
      assert (Hget : PyDict.get idm a = Some (members (cobra.genes model) a)).
      { unfold idm. rewrite Grouping.get_grouping.
        destruct (members (cobra.genes model) a); [by apply elem_of_nil in Hp|done]. }
      assert (HA : a ∈ PyDict.keys idm) by (apply PyDictFacts.elem_of_keys; eauto).
      apply Assembler.get_fold_assemble.
      * intros b pids mass' _ Hb Hm Hpb.
        apply Grouping.get_grouping_Some in Hb as ->.
        assert (b = a) as -> by (by eapply Grouping.members_disjoint).
        rewrite Resolver.get_resolved_of, decide_True in Hm by done. congruence.
      * right. exists a, (members (cobra.genes model) a). split_and!; try done.
        -- apply Resolver.keys_resolved_of. split; [done|by rewrite Hr].
        -- rewrite Resolver.get_resolved_of, decide_True by done. by rewrite Hr.
    + apply PyDictFacts.not_elem_of_keys.
      intros (gene' & a' & mass & Hg' & Hid' & Ha' & Hr')%Hkey.
      assert (gene' = gene) as -> by (by eapply Grouping.well_formed_inj).
      congruence.
    + apply PyDictFacts.not_elem_of_keys.
      intros (gene' & a' & mass & Hg' & Hid' & Ha' & Hr')%Hkey.
      assert (gene' = gene) as -> by (by eapply Grouping.well_formed_inj).
      congruence.
  - intros p Hp. apply PyDictFacts.not_elem_of_keys.
    intros (gene' & a' & mass & Hg' & Hid' & _)%Hkey.
    apply Hp. rewrite <- Hid'. by apply list_elem_of_fmap_2.
Qed.

(** X14. The assembler on any two dictionaries: it returns, never raises
    and touches no file; it prints the "No mass found" message exactly for
    the keys of the mass dictionary that are not keys of the grouping, in
    their order; and the identifiers it maps are those of the groups of the
    accessions that the two dictionaries share. *)
Theorem assembler_alone (id_mapping : PyDict.t (list string))
    (mass_mapping : PyDict.t float) fs :
  let r := assembler id_mapping mass_mapping fs in
  (exists out,
     value r = Returned out /\
     forall p, p ∈ PyDict.keys out <->
       exists a protein_ids,
         PyDict.get id_mapping a = Some protein_ids /\
         is_Some (PyDict.get mass_mapping a) /\ p ∈ protein_ids) /\
  final r = fs /\
  log r = no_mass_found <$>
            filter (fun a => a ∉ PyDict.keys id_mapping) (PyDict.keys mass_mapping).
Proof.
  intros r. unfold r. rewrite Assembler.assembler_eq. cbn [value final log].
  split_and!; [|done|apply More.assembly_events_filter].
  eexists. split; [done|]. intros p. apply Assembler.elem_of_keys_assembled.
Qed.

(** X15. A model in which no gene carries a "uniprot" annotation: the run
    returns whatever the cache holds, makes no request, prints its two
    messages, leaves the cache records as they are and writes the empty
    mapping. *)
Theorem unannotated_model_writes_empty_mapping model project_folder project_name fs :
  let r := run model project_folder project_name fs in
  (forall gene, gene ∈ cobra.genes model ->
                cobra.annotation gene !! "uniprot" = None) ->
  value r = Returned tt /\
  log r = [starting; done_message] /\
  pickles (final r) = pickles fs /\
  files (final r)
    = <[output_path project_folder project_name := JsonMapping []]> (files fs).
Proof.
  intros r Hn.
  assert (Hidm : uniprot_id_protein_id_mapping model = []).
  { unfold uniprot_id_protein_id_mapping. by apply More.fold_group_unannotated. }
  assert (Hi : intact fs (PyDict.keys (uniprot_id_protein_id_mapping model))).
  { rewrite Hidm. constructor. }
  destruct (Workflow.run_returns requests_get json_loads float_of_str
              model project_folder project_name fs Hi)
    as (Hv & _ & _ & Hfi & Hpk & Hlog).
  fold r in Hv, Hfi, Hpk, Hlog. rewrite Hidm in Hfi, Hpk, Hlog.
  split_and!; [done|done| |done].
  apply map_eq. intros p. rewrite Hpk. apply Resolver.pickles_after_nil.
Qed.

End extras.

Section sbml_entry.

Variable requests_get : string -> PyDict.t string -> option Response.
Variable json_loads : string -> option json.
Variable float_of_str : string -> option float.
Variable read_sbml_model : string -> option cobra.Model.

Local Abbreviation with_sbml :=
  (get_protein_mass_mapping_with_sbml requests_get json_loads float_of_str
     read_sbml_model).


End sbml_entry.

(** The grouping of the end-to-end example over an empty cache. *)
Lemma resolver_result_witness :
  NoDup (PyDict.keys Scenario.grouping) /\
  value (resolver (Fixture.service Fixture.table) (Fixture.json_loads Fixture.table)
           Fixture.float_of_str Scenario.grouping Fixture.empty_fs)
    = Returned [("P1", 10.5%float)] /\
  NoDup (PyDict.keys [("P1", 10.5%float)]) /\
  PyDict.keys [("P1", 10.5%float)]
    = filter (fun a => is_Some (PyDict.get [("P1", 10.5%float)] a))
             (PyDict.keys Scenario.grouping) /\
  (forall a mass, a ∈ PyDict.keys Scenario.grouping ->
     cached Fixture.empty_fs a = Some (Pickled mass) ->
     PyDict.get [("P1", 10.5%float)] a = Some mass) /\
  (forall a, a ∈ PyDict.keys Scenario.grouping ->
     cached Fixture.empty_fs a = None ->
     PyDict.get [("P1", 10.5%float)] a = Fixture.lookup Fixture.table a) /\
  (forall a, a ∉ PyDict.keys Scenario.grouping ->
     PyDict.get [("P1", 10.5%float)] a = None).
Proof.
  assert (Hnd : NoDup (PyDict.keys Scenario.grouping)).
  { apply (bool_decide_unpack _). by vm_compute. }
  split; [exact Hnd|]. split; [by vm_compute|].
  apply (resolver_result
           (Fixture.service Fixture.table) (Fixture.json_loads Fixture.table)
           Fixture.float_of_str Scenario.grouping Fixture.empty_fs
           [("P1", 10.5%float)] Hnd).
  by vm_compute.
Defined.

(** The end-to-end example run: P1 is fetched and cached, P2 is not. *)
Lemma fetched_masses_are_cached_witness :
  value (Fixture.run Fixture.table Fixture.genes "out" "proj" Fixture.empty_fs)
    = Returned tt /\
  (forall a,
     a ∈ PyDict.keys (uniprot_id_protein_id_mapping {| cobra.genes := Fixture.genes |}) ->
     cached Fixture.empty_fs a = None ->
     cached (final (Fixture.run Fixture.table Fixture.genes "out" "proj"
                      Fixture.empty_fs)) a
       = Pickled <$> Fixture.lookup Fixture.table a) /\
  (forall p,
     (forall a,
        a ∈ PyDict.keys (uniprot_id_protein_id_mapping {| cobra.genes := Fixture.genes |}) ->
        p ≠ cache_basepath +:+ a) ->
     pickles (final (Fixture.run Fixture.table Fixture.genes "out" "proj"
                       Fixture.empty_fs)) !! p
       = pickles Fixture.empty_fs !! p).
Proof.
  split; [by vm_compute|].
  apply (fetched_masses_are_cached
           (Fixture.service Fixture.table) (Fixture.json_loads Fixture.table)
           Fixture.float_of_str {| cobra.genes := Fixture.genes |}
           "out" "proj" Fixture.empty_fs).
  by vm_compute.
Defined.

(** The end-to-end example run: the mass of P1 is in the cache afterwards. *)
Lemma resolved_masses_are_cached_witness :
  value (Fixture.run Fixture.table Fixture.genes "out" "proj" Fixture.empty_fs)
    = Returned tt /\
  value (resolver (Fixture.service Fixture.table) (Fixture.json_loads Fixture.table)
           Fixture.float_of_str
           (uniprot_id_protein_id_mapping {| cobra.genes := Fixture.genes |})
           Fixture.empty_fs) = Returned [("P1", 10.5%float)] /\
  PyDict.get [("P1", 10.5%float)] "P1" = Some 10.5%float /\
  cached (final (Fixture.run Fixture.table Fixture.genes "out" "proj" Fixture.empty_fs))
    "P1" = Some (Pickled 10.5).
Proof.
  split; [by vm_compute|]. split; [by vm_compute|]. split; [by vm_compute|].
  apply (resolved_masses_are_cached
           (Fixture.service Fixture.table) (Fixture.json_loads Fixture.table)
           Fixture.float_of_str {| cobra.genes := Fixture.genes |}
           "out" "proj" Fixture.empty_fs [("P1", 10.5%float)] "P1" 10.5%float);
    by vm_compute.
Defined.

(** The end-to-end example run, then the same run again. *)
Lemma rerun_requests_only_failures_witness :
  value (Fixture.run Fixture.table Fixture.genes "out" "proj" Fixture.empty_fs)
    = Returned tt /\
  value (Fixture.run Fixture.table Fixture.genes "out" "proj"
           (final (Fixture.run Fixture.table Fixture.genes "out" "proj"
                     Fixture.empty_fs))) = Returned tt /\
  files (final (Fixture.run Fixture.table Fixture.genes "out" "proj"
                  (final (Fixture.run Fixture.table Fixture.genes "out" "proj"
                            Fixture.empty_fs))))
    = files (final (Fixture.run Fixture.table Fixture.genes "out" "proj"
                      Fixture.empty_fs)) /\
  pickles (final (Fixture.run Fixture.table Fixture.genes "out" "proj"
                    (final (Fixture.run Fixture.table Fixture.genes "out" "proj"
                              Fixture.empty_fs))))
    = pickles (final (Fixture.run Fixture.table Fixture.genes "out" "proj"
                        Fixture.empty_fs)) /\
  (forall a mass,
     resolution (Fixture.service Fixture.table) (Fixture.json_loads Fixture.table)
       Fixture.float_of_str Fixture.empty_fs a = Some mass ->
     requests_for a
       (log (Fixture.run Fixture.table Fixture.genes "out" "proj"
               (final (Fixture.run Fixture.table Fixture.genes "out" "proj"
                         Fixture.empty_fs)))) = 0) /\
  (forall a,
     a ∈ PyDict.keys (uniprot_id_protein_id_mapping {| cobra.genes := Fixture.genes |}) ->
     resolution (Fixture.service Fixture.table) (Fixture.json_loads Fixture.table)
       Fixture.float_of_str Fixture.empty_fs a = None ->
     requests_for a
       (log (Fixture.run Fixture.table Fixture.genes "out" "proj"
               (final (Fixture.run Fixture.table Fixture.genes "out" "proj"
                         Fixture.empty_fs)))) = 1).
Proof.
  split; [by vm_compute|].
  apply (rerun_requests_only_failures
           (Fixture.service Fixture.table) (Fixture.json_loads Fixture.table)
           Fixture.float_of_str {| cobra.genes := Fixture.genes |}
           "out" "proj" Fixture.empty_fs).
  by vm_compute.
Defined.

(** P1 is fetched, the record of P2 cannot be read, P7 is never reached. *)
Lemma run_stops_at_first_unreadable_record_witness :
  PyDict.keys (uniprot_id_protein_id_mapping {| cobra.genes := Scenario.genes |})
    = ["P1"] ++ "P2" :: ["P7"] /\
  intact Scenario.broken_fs ["P1"] /\
  corrupt Scenario.broken_fs "P2" = true /\
  value (Fixture.run Fixture.table Scenario.genes "out" "proj" Scenario.broken_fs)
    = Raised (CacheCorrupt (cache_basepath +:+ "P2")) /\
  files (final (Fixture.run Fixture.table Scenario.genes "out" "proj"
                  Scenario.broken_fs)) = files Scenario.broken_fs /\
  log (Fixture.run Fixture.table Scenario.genes "out" "proj" Scenario.broken_fs)
    = starting :: (["P1"] ≫= events_of Scenario.broken_fs) /\
  (forall a, a ∈ ["P1"] -> cached Scenario.broken_fs a = None ->
     cached (final (Fixture.run Fixture.table Scenario.genes "out" "proj"
                      Scenario.broken_fs)) a
       = Pickled <$> Fixture.lookup Fixture.table a) /\
  (forall a, a ∈ ["P7"] ->
     cached (final (Fixture.run Fixture.table Scenario.genes "out" "proj"
                      Scenario.broken_fs)) a = cached Scenario.broken_fs a /\
     requests_for a
       (log (Fixture.run Fixture.table Scenario.genes "out" "proj"
               Scenario.broken_fs)) = 0).
Proof.
  assert (Hk : PyDict.keys
                 (uniprot_id_protein_id_mapping {| cobra.genes := Scenario.genes |})
               = ["P1"] ++ "P2" :: ["P7"]) by (by vm_compute).
  assert (Hi : intact Scenario.broken_fs ["P1"]).
  { vm_compute. repeat constructor. }
  split; [exact Hk|]. split; [exact Hi|]. split; [by vm_compute|].
  exact (run_stops_at_first_unreadable_record
           (Fixture.service Fixture.table) (Fixture.json_loads Fixture.table)
           Fixture.float_of_str {| cobra.genes := Scenario.genes |}
           "out" "proj" Scenario.broken_fs ["P1"] "P2" ["P7"] Hk Hi eq_refl).
Defined.

(** The end-to-end example run, gene by gene. *)
Lemma output_gene_by_gene_witness :
  cobra.well_formed {| cobra.genes := Fixture.genes |} /\
  value (Fixture.run Fixture.table Fixture.genes "out" "proj" Fixture.empty_fs)
    = Returned tt /\
  files (final (Fixture.run Fixture.table Fixture.genes "out" "proj" Fixture.empty_fs))
    !! output_path "out" "proj" = Some (JsonMapping [("g1", 10.5%float)]) /\
  (forall gene, gene ∈ Fixture.genes ->
     PyDict.get [("g1", 10.5%float)] (cobra.id gene)
       = cobra.annotation gene !! "uniprot"
           ≫= resolution (Fixture.service Fixture.table)
                (Fixture.json_loads Fixture.table) Fixture.float_of_str
                Fixture.empty_fs) /\
  (forall p, p ∉ cobra.id <$> Fixture.genes ->
     PyDict.get [("g1", 10.5%float)] p = None).
Proof.
  assert (Hwf : cobra.well_formed {| cobra.genes := Fixture.genes |}).
  { apply (bool_decide_unpack _). by vm_compute. }
  split; [exact Hwf|]. split; [by vm_compute|]. split; [by vm_compute|].
  apply (output_gene_by_gene
           (Fixture.service Fixture.table) (Fixture.json_loads Fixture.table)
           Fixture.float_of_str {| cobra.genes := Fixture.genes |}
           "out" "proj" Fixture.empty_fs [("g1", 10.5%float)] Hwf);
    by vm_compute.
Defined.

(** Two genes without annotation, over a cache with an unreadable record. *)
Lemma unannotated_model_writes_empty_mapping_witness :
  (forall gene, gene ∈ Scenario.bare_genes ->
                cobra.annotation gene !! "uniprot" = None) /\
  value (Fixture.run Fixture.table Scenario.bare_genes "out" "proj"
           Fixture.corrupt_fs) = Returned tt /\
  log (Fixture.run Fixture.table Scenario.bare_genes "out" "proj" Fixture.corrupt_fs)
    = [starting; done_message] /\
  pickles (final (Fixture.run Fixture.table Scenario.bare_genes "out" "proj"
                    Fixture.corrupt_fs)) = pickles Fixture.corrupt_fs /\
  files (final (Fixture.run Fixture.table Scenario.bare_genes "out" "proj"
                  Fixture.corrupt_fs))
    = <[output_path "out" "proj" := JsonMapping []]> (files Fixture.corrupt_fs).
Proof.
  assert (Hn : forall gene, gene ∈ Scenario.bare_genes ->
                            cobra.annotation gene !! "uniprot" = None).
  { intros gene Hg. apply elem_of_cons in Hg as [->|Hg]; [by vm_compute|].
    apply list_elem_of_singleton in Hg as ->. by vm_compute. }
  split; [exact Hn|].
  exact (unannotated_model_writes_empty_mapping
           (Fixture.service Fixture.table) (Fixture.json_loads Fixture.table)
           Fixture.float_of_str {| cobra.genes := Scenario.bare_genes |}
           "out" "proj" Fixture.corrupt_fs Hn).
Defined.
